(** * webpack-subresource-integrity: the plugin of [src/index.js]

    A shallow embedding of the plugin object and of the build pipeline it
    drives.  JavaScript objects used as dictionaries are finite maps, the
    insertion-ordered [Map] of [processChunk] is an association list,
    mutation is explicit state passing, and a JavaScript exception is the
    [Throw] outcome of a small error monad. *)

From Stdlib Require Import ZArith Ascii String.
From stdpp Require Import base tactics option list gmap strings pretty.

Local Open Scope Z_scope.
Local Open Scope stdpp_scope.
#[local] Set Warnings "-register-all".

(** The double-quote character, as a one-character string. *)
Definition dquote : string := String (ascii_of_nat 34) EmptyString.

(** ** JavaScript values *)

(** The values the plugin inspects with [typeof], truthiness tests and
    string concatenation.  Numbers are the integral ones; wrapper objects
    such as [new String('sha256')] are left out. *)
Inductive jsval : Type :=
  | JUndefined
  | JNull
  | JBool (b : bool)
  | JNum (n : Z)
  | JStr (s : string)
  | JFun (code : string)
  | JArr (elems : list jsval)
  | JObj (props : list (string * jsval)).

Definition typeof (v : jsval) : string :=
  match v with
  | JUndefined => "undefined"
  | JNull => "object"
  | JBool _ => "boolean"
  | JNum _ => "number"
  | JStr _ => "string"
  | JFun _ => "function"
  | JArr _ => "object"
  | JObj _ => "object"
  end.

(** [ToBoolean]: what [if (v)], [!v] and [v || w] look at. *)
Definition truthy (v : jsval) : bool :=
  match v with
  | JUndefined | JNull => false
  | JBool b => b
  | JNum n => negb (n =? 0)
  | JStr s => negb (String.eqb s EmptyString)
  | JFun _ | JArr _ | JObj _ => true
  end.

Definition js_or (v w : jsval) : jsval := if truthy v then v else w.

(** [ToString], as applied by ['text' + v]. *)
Fixpoint toString (v : jsval) : string :=
  match v with
  | JUndefined => "undefined"
  | JNull => "null"
  | JBool true => "true"
  | JBool false => "false"
  | JNum n => pretty n
  | JStr s => s
  | JFun code => code
  | JArr elems =>
      String.concat ","
        (map (fun e => match e with
                       | JUndefined | JNull => EmptyString
                       | _ => toString e
                       end) elems)
  | JObj _ => "[object Object]"
  end.

(** The own enumerable properties [Object.assign] copies from a source whose
    [typeof] is ["object"]: the properties of an object in definition order,
    the indices of an array. *)
Definition ownProps (v : jsval) : list (string * jsval) :=
  match v with
  | JObj props => props
  | JArr elems => imap (fun i e => (pretty i, e)) elems
  | _ => []
  end.

(** A dictionary object; an absent key reads as [undefined]. *)
Definition getProp (o : gmap string jsval) (k : string) : jsval :=
  default JUndefined (o !! k).

Definition objectAssign (target : gmap string jsval) (source : jsval)
  : gmap string jsval :=
  foldl (fun t kv => <[kv.1 := kv.2]> t) target (ownProps source).

(** ** Outcomes *)

Inductive exn : Type :=
  | TypeError (msg : string)
  | Error (msg : string).

(** A call returns, throws, or (for the chunk walk only) uses up the bound on
    its recursion depth. *)
Inductive outcome (A : Type) : Type :=
  | Ok (a : A)
  | Throw (e : exn)
  | OutOfFuel.
Arguments Ok {A} a.
Arguments Throw {A} e.
Arguments OutOfFuel {A}.

#[global] Instance outcome_ret : MRet outcome := fun A a => Ok a.
#[global] Instance outcome_bind : MBind outcome := fun A B f m =>
  match m with
  | Ok a => f a
  | Throw e => Throw e
  | OutOfFuel => OutOfFuel
  end.

(** ** The plugin instance and the compilation *)

(** The keys every plain object inherits from [Object.prototype]; reading one
    of them from [{}] yields a function or an object, hence a truthy value. *)
Definition objectPrototypeKeys : list string :=
  [ "constructor"; "__defineGetter__"; "__defineSetter__"; "hasOwnProperty";
    "__lookupGetter__"; "__lookupSetter__"; "isPrototypeOf";
    "propertyIsEnumerable"; "toString"; "valueOf"; "__proto__";
    "toLocaleString" ].

Record Plugin : Type := mkPlugin {
  options : gmap string jsval;
  emittedMessages : gset string;
  optionsValidated : bool;
  hwpPublicPath : jsval
}.

(** [function SubresourceIntegrityPlugin(options)] *)
Definition SubresourceIntegrityPlugin (opts : jsval) : outcome Plugin :=
  useOptions ←
    (match opts with
     | JNull | JUndefined => Ok (JObj [])
     | _ =>
         if String.eqb (typeof opts) "object" then Ok opts
         else Throw (Error "webpack-subresource-integrity: argument must be an object")
     end);
  Ok {| options := objectAssign {[ "enabled" := JBool true ]} useOptions;
        emittedMessages := ∅;
        optionsValidated := false;
        hwpPublicPath := JUndefined |}.

(** ** Sources and assets *)

(** One [replace(start, end, newValue)] call recorded by a [ReplaceSource];
    [insertIndex] is the number of replacements recorded before it. *)
Record Replacement : Type := mkReplacement {
  r_start : Z;
  r_end : Z;
  r_content : string;
  r_insertIndex : nat
}.

(** The source objects of webpack-sources the plugin meets: a source with a
    fixed text, and the copy-on-write wrapper [new ReplaceSource(inner)]. *)
Inductive Source : Type :=
  | RawSource (value : string)
  | ReplaceSource (inner : Source) (replacements : list Replacement).

(** An entry of [compilation.assets]: a source object and the [integrity]
    property the plugin attaches to it ([None] while it is undefined). *)
Record Asset : Type := mkAsset {
  a_source : Source;
  integrity : option string
}.

(** A chunk as the plugin reads it: its output files in order, and the ids of
    the chunks it loads at run time.  The chunk graph maps each chunk id to
    its chunk. *)
Record Chunk : Type := mkChunk {
  files : list string;
  children : list string
}.

Record Compilation : Type := mkCompilation {
  warnings : list exn;
  errors : list exn;
  (* compilation.compiler.options.output.crossOriginLoading *)
  crossOriginLoading : jsval;
  assets : gmap string Asset;
  (* chunk id -> representative asset, filled by the chunk-asset hook *)
  sriChunkAssets : gmap string string;
  (* what the plugin has tapped for this compilation, latest last *)
  taps : list string
}.

Definition set_options (p : Plugin) (o : gmap string jsval) : Plugin :=
  {| options := o; emittedMessages := emittedMessages p;
     optionsValidated := optionsValidated p; hwpPublicPath := hwpPublicPath p |}.

Definition set_emittedMessages (p : Plugin) (e : gset string) : Plugin :=
  {| options := options p; emittedMessages := e;
     optionsValidated := optionsValidated p; hwpPublicPath := hwpPublicPath p |}.

Definition set_optionsValidated (p : Plugin) (b : bool) : Plugin :=
  {| options := options p; emittedMessages := emittedMessages p;
     optionsValidated := b; hwpPublicPath := hwpPublicPath p |}.

Definition set_hwpPublicPath (p : Plugin) (v : jsval) : Plugin :=
  {| options := options p; emittedMessages := emittedMessages p;
     optionsValidated := optionsValidated p; hwpPublicPath := v |}.

Definition set_warnings (c : Compilation) (w : list exn) : Compilation :=
  {| warnings := w; errors := errors c;
     crossOriginLoading := crossOriginLoading c; assets := assets c;
     sriChunkAssets := sriChunkAssets c; taps := taps c |}.

Definition set_errors (c : Compilation) (e : list exn) : Compilation :=
  {| warnings := warnings c; errors := e;
     crossOriginLoading := crossOriginLoading c; assets := assets c;
     sriChunkAssets := sriChunkAssets c; taps := taps c |}.

Definition set_sriChunkAssets (c : Compilation) (t : gmap string string)
  : Compilation :=
  {| warnings := warnings c; errors := errors c;
     crossOriginLoading := crossOriginLoading c; assets := assets c;
     sriChunkAssets := t; taps := taps c |}.

Definition set_taps (c : Compilation) (t : list string) : Compilation :=
  {| warnings := warnings c; errors := errors c;
     crossOriginLoading := crossOriginLoading c; assets := assets c;
     sriChunkAssets := sriChunkAssets c; taps := t |}.

(** ** Diagnostics *)

(** [emitMessage]: [messages.push(new Error(prefix + message))] *)
Definition emitMessage (messages : list exn) (message : string) : list exn :=
  messages ++ [Error ("webpack-subresource-integrity: " +:+ message)].

(** [this.emittedMessages[message]] read as a condition: an own key set to
    [true], or a key inherited by the plain object. *)
Definition wasEmitted (p : Plugin) (message : string) : bool :=
  bool_decide (message ∈ emittedMessages p)
  || bool_decide (message ∈ objectPrototypeKeys).

Definition emitMessageOnce (p : Plugin) (messages : list exn) (message : string)
  : Plugin * list exn :=
  if negb (wasEmitted p message) then
    (set_emittedMessages p ({[ message ]} ∪ emittedMessages p),
     emitMessage messages message)
  else (p, messages).

Definition warnOnce (p : Plugin) (c : Compilation) (message : string)
  : Plugin * Compilation :=
  let '(p', w) := emitMessageOnce p (warnings c) message in
  (p', set_warnings c w).

Definition error (c : Compilation) (message : string) : Compilation :=
  set_errors c (emitMessage (errors c) message).

Definition errorOnce (p : Plugin) (c : Compilation) (message : string)
  : Plugin * Compilation :=
  let '(p', e) := emitMessageOnce p (errors c) message in
  (p', set_errors c e).

(** ** The cryptographic provider *)

(** [crypto.createHash(name)] either throws an [Error] with a message, or
    yields a hash object; the hash object is represented by the function
    from the text fed to [update] to its [digest('base64')]. *)
Inductive HashResult : Type :=
  | Unsupported (message : string)
  | Hash (digest64 : string -> string).

(* https://www.w3.org/TR/2016/REC-SRI-20160623/#cryptographic-hash-functions *)
Definition standardHashFuncNames : list string := ["sha256"; "sha384"; "sha512"].

(** [Array.prototype.every] over a callback that may push diagnostics:
    it stops at the first element the callback rejects. *)
Fixpoint every (f : Compilation -> jsval -> Compilation * bool)
    (c : Compilation) (l : list jsval) : Compilation * bool :=
  match l with
  | [] => (c, true)
  | x :: rest =>
      let '(c', ok) := f c x in
      if ok then every f c' rest else (c', false)
  end.

Section WithCrypto.

Variable createHash : string -> HashResult.

(** ** Option validation *)

Definition validateHashFuncName (c : Compilation) (hashFuncName : jsval)
  : Compilation * bool :=
  match hashFuncName with
  | JStr name =>
      match createHash name with
      | Unsupported message =>
          (error c ("Cannot use hash function '" +:+ name +:+ "': " +:+ message),
           false)
      | Hash _ => (c, true)
      end
  | _ =>
      (error c ("options.hashFuncNames must be an array of hash function names, "
                +:+ "but contained " +:+ toString hashFuncName +:+ "."),
       false)
  end.

Definition isStandardHashFunc (v : jsval) : bool :=
  match v with
  | JStr name => bool_decide (name ∈ standardHashFuncNames)
  | _ => false
  end.

Definition warnStandardHashFunc (p : Plugin) (c : Compilation) (names : list jsval)
  : Plugin * Compilation :=
  let foundStandardHashFunc :=
    foldl (fun found name => if isStandardHashFunc name then true else found)
          false names in
  if negb foundStandardHashFunc then
    warnOnce p c
      ("It is recommended that at least one hash function is part of the set "
       +:+ "for which support is mandated by the specification. "
       +:+ "These are: " +:+ String.concat ", " standardHashFuncNames +:+ ". "
       +:+ "See http://www.w3.org/TR/SRI/#cryptographic-hash-functions for more information.")
  else (p, c).

Definition disable (p : Plugin) : Plugin :=
  set_options p (<["enabled" := JBool false]> (options p)).

Definition validateHashFuncNames (p : Plugin) (c : Compilation)
  : Plugin * Compilation :=
  match getProp (options p) "hashFuncNames" with
  | JArr names =>
      let '(c', ok) := every validateHashFuncName c names in
      if negb ok then (disable p, c')
      else warnStandardHashFunc p c' names
  | other =>
      (disable p,
       error c ("options.hashFuncNames must be an array of hash function names, "
                +:+ "instead got '" +:+ toString other +:+ "'."))
  end.

Definition crossOriginWarning : string :=
  "SRI requires a cross-origin policy, defaulting to " +:+ dquote
  +:+ "anonymous" +:+ dquote +:+ ". "
  +:+ "Set webpack option output.crossOriginLoading to a value other than false "
  +:+ "to make this warning go away. "
  +:+ "See https://w3c.github.io/webappsec-subresource-integrity/#cross-origin-data-leakage".

Definition validateOptions (p : Plugin) (c : Compilation) : Plugin * Compilation :=
  if optionsValidated p then (p, c)
  else
    let p1 := set_optionsValidated p true in
    let '(p2, c2) :=
      if truthy (getProp (options p1) "enabled")
         && negb (truthy (crossOriginLoading c))
      then warnOnce p1 c crossOriginWarning
      else (p1, c) in
    validateHashFuncNames p2 c2.


(** [thisCompilation]: validation comes first, and a disabled plugin leaves
    the compilation without any of its hooks.  [compilerHooks] tells whether
    the host has [compiler.hooks] (webpack 4) or the older [plugin] API. *)
Definition thisCompilation (compilerHooks : bool) (p : Plugin) (c : Compilation)
  : Plugin * Compilation :=
  let '(p', c') := validateOptions p c in
  if negb (truthy (getProp (options p') "enabled")) then (p', c')
  else
    let c1 := set_taps c' (taps c' ++ ["jsonp-main-template"]) in
    let c2 := set_sriChunkAssets c1 ∅ in
    let names :=
      if compilerHooks
      then ["afterOptimizeAssets"; "beforeChunkAssets"; "HtmlWebpackPluginHooks"]
      else ["after-optimize-assets"; "before-chunk-assets";
            "html-webpack-plugin-alter-asset-tags";
            "html-webpack-plugin-before-html-generation"] in
    (p', set_taps c2 (taps c2 ++ names)).

(** ** ReplaceSource *)

(** [str.substr(0, n)] and [str.substr(n)] *)
Fixpoint str_take (n : nat) (s : string) : string :=
  match n, s with
  | S n', String ch rest => String ch (str_take n' rest)
  | _, _ => EmptyString
  end.

Fixpoint str_drop (n : nat) (s : string) : string :=
  match n, s with
  | S n', String _ rest => str_drop n' rest
  | _, _ => s
  end.

(** [ReplaceSource.prototype._splitString] *)
Definition splitString (str : string) (position : Z) : string * string :=
  if position <=? 0 then (EmptyString, str)
  else (str_take (Z.to_nat position) str, str_drop (Z.to_nat position) str).

(** The comparator of [_sortReplacements] is negative on [(a, b)]: later end
    first, then later start, then later insertion. *)
Definition replBefore (a b : Replacement) : bool :=
  if negb (r_end b - r_end a =? 0) then r_end b - r_end a <? 0
  else if negb (r_start b - r_start a =? 0) then r_start b - r_start a <? 0
  else (Z.of_nat (r_insertIndex b) - Z.of_nat (r_insertIndex a) <? 0).

Fixpoint insertReplacement (a : Replacement) (l : list Replacement)
  : list Replacement :=
  match l with
  | [] => [a]
  | b :: rest =>
      if replBefore b a then b :: insertReplacement a rest else a :: b :: rest
  end.

Definition sortReplacements (l : list Replacement) : list Replacement :=
  foldr insertReplacement [] l.

(** One round of the loop of [_replaceString].  The JavaScript array [result]
    is kept with its last element first, so that [pop] takes the head. *)
Definition applyReplacement (result : list string) (repl : Replacement)
  : list string :=
  match result with
  | [] => []
  | remSource :: rest =>
      let '(splitted1_0, splitted1_1) := splitString remSource (r_end repl + 1) in
      let '(splitted2_0, _) := splitString splitted1_0 (r_start repl) in
      splitted2_0 :: r_content repl :: splitted1_1 :: rest
  end.

Definition replaceString (str : string) (replacements : list Replacement)
  : string :=
  foldr String.append EmptyString
    (foldl applyReplacement [str] (sortReplacements replacements)).

(** [asset.source()] *)
Fixpoint source (s : Source) : string :=
  match s with
  | RawSource value => value
  | ReplaceSource inner replacements => replaceString (source inner) replacements
  end.

(** ** Integrity strings *)

(** [this.options.hashFuncNames] handed to the helpers of [util]: they call
    [map] on it and pass each element to [createHash], which fails with a
    [TypeError] on anything but an array of strings. *)
Definition asNames (hashFuncNames : jsval) : outcome (list string) :=
  match hashFuncNames with
  | JArr elems =>
      mapM (fun e => match e with
                     | JStr name => Ok name
                     | _ => Throw (TypeError "algorithm must be a string")
                     end) elems
  | _ => Throw (TypeError "hashFuncNames.map is not a function")
  end.

(** Modelled from the spec: [util.computeIntegrity], whose file is not part of
    the sources at hand.  For each algorithm in order, the base64 digest of
    the bytes, formatted [name-digest]; the entries joined by single spaces.
    An algorithm the provider does not support makes the call fail. *)
Definition computeIntegrity (algorithms : list string) (bytes : string)
  : outcome string :=
  entries ← mapM (fun name =>
                    match createHash name with
                    | Hash digest64 => Ok (name +:+ "-" +:+ digest64 bytes)
                    | Unsupported message => Throw (Error message)
                    end) algorithms;
  Ok (String.concat " " entries).

(** [util.makePlaceholder(algorithms, chunkId)]: the spec fixes only that it
    is a deterministic function of its two arguments. *)
Variable makePlaceholder : list string -> string -> string.

(** The text a [ReplaceSource] splices in for a value of the map.  The map
    only ever receives the [integrity] that [replaceAsset] has just set, a
    string; a missing value is rendered as concatenation would. *)
Definition contentText (v : option string) : string :=
  from_option id "undefined" v.

(** ** The rewrite pipeline *)

(** The body of [replaceMagicMarkers], for one entry of the map. *)
Definition replaceMagicMarkers (names : list string) (oldSource : string)
    (replacements : list Replacement) (idAndHash : string * option string)
  : list Replacement :=
  let magicMarker := makePlaceholder names idAndHash.1 in
  match index 0 magicMarker oldSource with
  | Some magicMarkerPos =>
      replacements ++
        [ {| r_start := Z.of_nat magicMarkerPos;
             r_end := (Z.of_nat magicMarkerPos
                       + Z.of_nat (String.length magicMarker)) - 1;
             r_content := contentText idAndHash.2;
             r_insertIndex := length replacements |} ]
  | None => replacements
  end.

(** [replaceAsset(assets, hashByChunkId, chunkFile)]; returns the updated
    [assets] object together with the new asset. *)
Definition replaceAsset (p : Plugin) (assets : gmap string Asset)
    (hashByChunkId : list (string * option string)) (chunkFile : string)
  : outcome (gmap string Asset * Asset) :=
  match assets !! chunkFile with
  | None => Throw (TypeError "Cannot read property 'source' of undefined")
  | Some old =>
      let oldSource := source (a_source old) in
      names ← asNames (getProp (options p) "hashFuncNames");
      let newSource :=
        ReplaceSource (a_source old)
          (foldl (replaceMagicMarkers names oldSource) [] hashByChunkId) in
      newIntegrity ← computeIntegrity names (source newSource);
      let newAsset := {| a_source := newSource; integrity := Some newIntegrity |} in
      Ok (<[chunkFile := newAsset]> assets, newAsset)
  end.

(** [hashByChunkId.set(key, value)] on an insertion-ordered [Map]. *)
Fixpoint mapSet {V : Type} (m : list (string * V)) (key : string) (value : V)
  : list (string * V) :=
  match m with
  | [] => [(key, value)]
  | (k, v) :: rest =>
      if decide (k = key) then (key, value) :: rest
      else (k, v) :: mapSet rest key value
  end.

(** Modelled from the spec: [util.findChunks], whose file is not part of the
    sources at hand.  A depth-first walk over the runtime-load edges that
    starts at the root and collects every reachable chunk once, in discovery
    order, with a visited set keyed by chunk id.  [fuel] bounds the depth of
    the recursion; an id without a chunk in the graph is passed over. *)
Fixpoint recurseChunk (fuel : nat) (g : gmap string Chunk)
    (visited : list (string * Chunk)) (id : string)
  : option (list (string * Chunk)) :=
  match fuel with
  | O => None
  | S fuel' =>
      if bool_decide (id ∈ visited.*1) then Some visited
      else
        match g !! id with
        | None => Some visited
        | Some chunk =>
            foldl (fun acc child =>
                     match acc with
                     | Some seen => recurseChunk fuel' g seen child
                     | None => None
                     end)
                  (Some (visited ++ [(id, chunk)])) (children chunk)
        end
  end.

Definition findChunks (g : gmap string Chunk) (root : string)
  : option (list (string * Chunk)) :=
  recurseChunk (S (size g)) g [] root.

(** What [processChunk] threads through its loop: the plugin (for the
    message memo), the compilation (for the warnings), the [assets] object
    and the local [hashByChunkId]. *)
Record ChunkState : Type := mkChunkState {
  cs_plugin : Plugin;
  cs_compilation : Compilation;
  cs_assets : gmap string Asset;
  cs_hashByChunkId : list (string * option string)
}.

Definition hotUpdateWarning : string :=
  "webpack-subresource-integrity may interfere with hot reloading. "
  +:+ "Consider disabling this plugin in development mode.".

Definition warnIfHotUpdate (p : Plugin) (c : Compilation) (src : string)
  : Plugin * Compilation :=
  match index 0 "webpackHotUpdate" src with
  | Some _ => warnOnce p c hotUpdateWarning
  | None => (p, c)
  end.

Definition cannotDetermineAsset (chunkId : string) (sourcePath : option string)
    (available : string) : string :=
  "Cannot determine asset for chunk " +:+ chunkId +:+ ", computed=" +:+ dquote
  +:+ from_option id "undefined" sourcePath
  +:+ dquote +:+ ", available=" +:+ available
  +:+ ". Please report this full error message "
  +:+ "along with your Webpack configuration at "
  +:+ "https://github.com/waysact/webpack-subresource-integrity/issues/new".

(** The part of the loop body of [processChunk] that follows the choice of
    [sourcePath]. *)
Definition processSourcePath (st : ChunkState) (id : string) (sourcePath : string)
  : outcome ChunkState :=
  match cs_assets st !! sourcePath with
  | None => Throw (TypeError "Cannot read property 'source' of undefined")
  | Some asset =>
      let '(p, c) :=
        warnIfHotUpdate (cs_plugin st) (cs_compilation st)
                        (source (a_source asset)) in
      '(assets', newAsset) ←
        replaceAsset p (cs_assets st) (cs_hashByChunkId st) sourcePath;
      Ok {| cs_plugin := p; cs_compilation := c; cs_assets := assets';
            cs_hashByChunkId :=
              mapSet (cs_hashByChunkId st) id (integrity newAsset) |}
  end.

Definition withDiagnostics (st : ChunkState) (pc : Plugin * Compilation)
  : ChunkState :=
  {| cs_plugin := pc.1; cs_compilation := pc.2; cs_assets := cs_assets st;
     cs_hashByChunkId := cs_hashByChunkId st |}.

(** The loop body of [processChunk], for the chunk [childChunk] of id [id]. *)
Definition processChildChunk (st : ChunkState) (idAndChunk : string * Chunk)
  : outcome ChunkState :=
  let '(id, childChunk) := idAndChunk in
  match files childChunk with
  | [] =>
      (* This can happen with invalid Webpack configurations *)
      Ok st
  | first :: _ =>
      let sourcePath := sriChunkAssets (cs_compilation st) !! id in
      match sourcePath with
      | Some path =>
          if bool_decide (path ∈ files childChunk) then
            processSourcePath st id path
          else
            processSourcePath
              (withDiagnostics st
                 (warnOnce (cs_plugin st) (cs_compilation st)
                           (cannotDetermineAsset id sourcePath first)))
              id first
      | None =>
          processSourcePath
            (withDiagnostics st
               (warnOnce (cs_plugin st) (cs_compilation st)
                         (cannotDetermineAsset id sourcePath first)))
            id first
      end
  end.

Fixpoint forEachChunk (st : ChunkState) (l : list (string * Chunk))
  : outcome ChunkState :=
  match l with
  | [] => Ok st
  | x :: rest => st' ← processChildChunk st x; forEachChunk st' rest
  end.

(** [processChunk(chunk, compilation, assets)], with the chunk given by its id
    in the chunk graph.  The result is the state at the end of the loop. *)
Definition processChunk (p : Plugin) (c : Compilation)
    (assets : gmap string Asset) (g : gmap string Chunk) (root : string)
  : outcome ChunkState :=
  match findChunks g root with
  | None => OutOfFuel
  | Some found =>
      forEachChunk
        {| cs_plugin := p; cs_compilation := c; cs_assets := assets;
           cs_hashByChunkId := [] |}
        (reverse found)
  end.

(** [compilation.assets[asset]] read as a condition: the name of an asset,
    or a key that the plain object [assets] inherits. *)
Definition hasAsset (files : gmap string Asset) (asset : string) : bool :=
  bool_decide (is_Some (files !! asset))
  || bool_decide (asset ∈ objectPrototypeKeys).

(** [chunkAsset(compilation, chunk, asset)], the pre-pass that fills the
    asset-path table, on the chunk of a given id. *)
Definition chunkAsset (c : Compilation) (id : string) (asset : string)
  : Compilation :=
  if hasAsset (assets c) asset
  then set_sriChunkAssets c (<[id := asset]> (sriChunkAssets c))
  else c.

(** [!asset.integrity] *)
Definition lacksIntegrity (a : Asset) : bool :=
  match integrity a with
  | None => true
  | Some i => String.eqb i EmptyString
  end.

(** The body of the loop of [addMissingIntegrityHashes] for one asset; the
    boolean tells whether [util.computeIntegrity] was called for it. *)
Definition addMissingIntegrity (p : Plugin) (keyAndAsset : string * Asset)
  : outcome (string * Asset * bool) :=
  let '(assetKey, asset) := keyAndAsset in
  if lacksIntegrity asset then
    names ← asNames (getProp (options p) "hashFuncNames");
    newIntegrity ← computeIntegrity names (source (a_source asset));
    Ok (assetKey, {| a_source := a_source asset; integrity := Some newIntegrity |},
        true)
  else Ok (assetKey, asset, false).

(** [addMissingIntegrityHashes(assets)]: the updated assets, and the keys of
    the assets whose integrity this run computed. *)
Definition addMissingIntegrityHashes (p : Plugin) (assets : gmap string Asset)
  : outcome (gmap string Asset * list string) :=
  visited ← mapM (addMissingIntegrity p) (map_to_list assets);
  Ok (list_to_map (visited.*1),
      (filter (fun entry => entry.2 = true) visited).*1.*1).

End WithCrypto.

(** ** The document tag annotator *)

Record Tag : Type := mkTag {
  tagName : string;
  attributes : gmap string jsval
}.

Definition set_attributes (t : Tag) (a : gmap string jsval) : Tag :=
  {| tagName := tagName t; attributes := a |}.

Section WithTagHelpers.

(** [util.getTagSrc] and [util.getIntegrityChecksumForAsset], whose file is
    not part of the sources at hand, and Node's [path.relative], which
    throws on an argument that is not a string. *)
Variable getTagSrc : Tag -> jsval.
Variable getIntegrityChecksumForAsset : gmap string Asset -> string -> jsval.
Variable pathRelative : jsval -> jsval -> outcome string.

Definition hwpAssetPath (p : Plugin) (src : jsval) : outcome string :=
  pathRelative (hwpPublicPath p) src.

Definition processTag (p : Plugin) (c : Compilation) (tag : Tag) : outcome Tag :=
  src ← hwpAssetPath p (getTagSrc tag);
  let integrityValue := getIntegrityChecksumForAsset (assets c) src in
  if negb (bool_decide (is_Some (attributes tag !! "integrity"))) then
    Ok (set_attributes tag
          (<["crossorigin" := js_or (crossOriginLoading c) (JStr "anonymous")]>
             (<["integrity" := integrityValue]> (attributes tag))))
  else Ok tag.

End WithTagHelpers.

(** ** The hooks *)

Definition set_assets (c : Compilation) (a : gmap string Asset) : Compilation :=
  {| warnings := warnings c; errors := errors c;
     crossOriginLoading := crossOriginLoading c; assets := a;
     sriChunkAssets := sriChunkAssets c; taps := taps c |}.

Section WithHooks.

Variable createHash : string -> HashResult.
Variable makePlaceholder : list string -> string -> string.

(** [util.isRuntimeChunk], whose file is not part of the sources at hand,
    on the chunk of a given id. *)
Variable isRuntimeChunk : string -> bool.

(** The [forEach] of [afterOptimizeAssets] over the chunks that passed the
    filter: [processChunk] works on the same plugin, compilation and
    [assets] object from one chunk to the next. *)
Fixpoint forEachRuntimeChunk (p : Plugin) (c : Compilation)
    (assets : gmap string Asset) (g : gmap string Chunk) (chunks : list string)
  : outcome (Plugin * Compilation * gmap string Asset) :=
  match chunks with
  | [] => Ok (p, c, assets)
  | chunk :: rest =>
      st ← processChunk createHash makePlaceholder p c assets g chunk;
      forEachRuntimeChunk (cs_plugin st) (cs_compilation st) (cs_assets st)
        g rest
  end.

(** [afterOptimizeAssets(compilation, assets)], with [compilation.chunks]
    given by the ids of the chunks in order. *)
Definition afterOptimizeAssets (p : Plugin) (c : Compilation)
    (assets : gmap string Asset) (g : gmap string Chunk) (chunks : list string)
  : outcome (Plugin * Compilation * gmap string Asset) :=
  '(p', c', assets') ←
    forEachRuntimeChunk p c assets g (List.filter isRuntimeChunk chunks);
  '(assets'', _) ← addMissingIntegrityHashes createHash p' assets';
  Ok (p', c', assets'').

End WithHooks.

(** The argument of the html-webpack-plugin hook on asset tags. *)
Record PluginArgs : Type := mkPluginArgs {
  pa_head : list Tag;
  pa_body : list Tag
}.

Section WithTagHooks.

Variable createHash : string -> HashResult.
Variable getTagSrc : Tag -> jsval.
Variable getIntegrityChecksumForAsset : gmap string Asset -> string -> jsval.
Variable pathRelative : jsval -> jsval -> outcome string.

(** [util.filterTag], whose file is not part of the sources at hand. *)
Variable filterTag : Tag -> bool.

(** [tags.filter(util.filterTag).forEach(processTag)]: the tags that pass the
    filter are annotated in place, the list keeps all its tags in order. *)
Definition processTags (p : Plugin) (c : Compilation) (tags : list Tag)
  : outcome (list Tag) :=
  mapM (fun tag =>
          if filterTag tag then
            processTag getTagSrc getIntegrityChecksumForAsset pathRelative
              p c tag
          else Ok tag) tags.

(** [alterAssetTags(compilation, pluginArgs, callback)]: what [callback]
    receives.  The tags of the two lists are distinct objects. *)
Definition alterAssetTags (p : Plugin) (c : Compilation) (pluginArgs : PluginArgs)
  : outcome PluginArgs :=
  newHead ← processTags p c (pa_head pluginArgs);
  newBody ← processTags p c (pa_body pluginArgs);
  Ok {| pa_head := newHead; pa_body := newBody |}.

(** The [map] of [beforeHtmlGeneration] over the files of one type. *)
Definition assetIntegrity (p : Plugin) (files : gmap string Asset)
    (filePaths : list jsval) : outcome (list jsval) :=
  mapM (fun filePath =>
          src ← hwpAssetPath pathRelative p filePath;
          Ok (getIntegrityChecksumForAsset files src)) filePaths.

(** [beforeHtmlGeneration(compilation, pluginArgs, callback)] on
    [pluginArgs.assets] with the given [publicPath], [js] and [css]: the
    plugin and the compilation afterwards, and the lists stored as
    [jsIntegrity] and [cssIntegrity]. *)
Definition beforeHtmlGeneration (p : Plugin) (c : Compilation)
    (publicPath : jsval) (js css : list jsval)
  : outcome (Plugin * Compilation * list jsval * list jsval) :=
  let p1 := set_hwpPublicPath p publicPath in
  '(assets1, _) ← addMissingIntegrityHashes createHash p1 (assets c);
  let c1 := set_assets c assets1 in
  jsIntegrity ← assetIntegrity p1 (assets c1) js;
  cssIntegrity ← assetIntegrity p1 (assets c1) css;
  Ok (p1, c1, jsIntegrity, cssIntegrity).

End WithTagHooks.

(** ** A sample provider *)

(** A stand-in for the digests of the host, used to run the definitions on
    concrete inputs: it knows [sha256] and [sha384] and rejects the rest with
    the message Node gives. *)
Definition sampleDigest (seed : N) (text : string) : string :=
  pretty (foldl (fun acc ch => (acc * 31 + N_of_ascii ch) mod 1000003)%N seed
                (list_ascii_of_string text)).

Definition sampleCreateHash (name : string) : HashResult :=
  if String.eqb name "sha256" then Hash (sampleDigest 256)
  else if String.eqb name "sha384" then Hash (sampleDigest 384)
  else Unsupported "Digest method not supported".

Definition sampleMakePlaceholder (algorithms : list string) (chunkId : string)
  : string :=
  match computeIntegrity sampleCreateHash algorithms
          ("*-*-*-CHUNK-SRI-HASH-" +:+ chunkId) with
  | Ok marker => marker
  | _ => EmptyString
  end.

(** A compilation at the start of a build. *)
Definition newCompilation (policy : jsval) (files : gmap string Asset)
  : Compilation :=
  {| warnings := []; errors := []; crossOriginLoading := policy;
     assets := files; sriChunkAssets := ∅; taps := [] |}.

(** The own property [k] of an object, the later definition winning. *)
Definition ownProp (v : jsval) (k : string) : option jsval :=
  snd <$> last (filter (fun kv => kv.1 = k) (ownProps v)).

(** Whether [validateHashFuncName] accepts an entry of [hashFuncNames]. *)
Definition validName (createHash : string -> HashResult) (e : jsval) : bool :=
  match e with
  | JStr name =>
      match createHash name with
      | Hash _ => true
      | Unsupported _ => false
      end
  | _ => false
  end.

(** A run of the plugin over several builds, as far as the once-only
    diagnostics go: every build brings its own compilation and a sequence of
    calls to [warnOnce] and [errorOnce]; the plugin instance is the same
    throughout. *)
Inductive Sink : Type := ToWarnings | ToErrors.

Definition emitOnceTo (sink : Sink) (p : Plugin) (c : Compilation)
    (message : string) : Plugin * Compilation :=
  match sink with
  | ToWarnings => warnOnce p c message
  | ToErrors => errorOnce p c message
  end.

Definition runCalls (p : Plugin) (c : Compilation) (calls : list (Sink * string))
  : Plugin * Compilation :=
  foldl (fun pc call => emitOnceTo call.1 pc.1 pc.2 call.2) (p, c) calls.

Fixpoint runBuilds (p : Plugin)
    (builds : list (Compilation * list (Sink * string)))
  : Plugin * list Compilation :=
  match builds with
  | [] => (p, [])
  | (c, calls) :: rest =>
      let '(p', c') := runCalls p c calls in
      let '(p'', cs) := runBuilds p' rest in
      (p'', c' :: cs)
  end.

#[global] Instance exn_eq_dec : EqDecision exn.
Proof. solve_decision. Defined.

(** How often a compilation lists the diagnostic made from [message]. *)
Definition timesEmitted (c : Compilation) (message : string) : nat :=
  length (filter (fun e => e = Error ("webpack-subresource-integrity: " +:+ message))
                 (warnings c ++ errors c)).

(** The plugin as constructed from [{ hashFuncNames: ['sha256'] }]. *)
Definition samplePlugin : Plugin :=
  {| options := <["hashFuncNames" := JArr [JStr "sha256"]]>
                  {[ "enabled" := JBool true ]};
     emittedMessages := ∅;
     optionsValidated := false;
     hwpPublicPath := JUndefined |}.

(** Stand-ins for the helpers of the tag annotator, to run it on concrete
    tags: the source of a tag is its [href] or else its [src]; the public
    path is a prefix to drop; the integrity of an asset is looked up by key. *)
Definition sampleGetTagSrc (tag : Tag) : jsval :=
  js_or (getProp (attributes tag) "href") (getProp (attributes tag) "src").

Definition samplePathRelative (from to : jsval) : outcome string :=
  match from, to with
  | JStr base, JStr target => Ok (str_drop (String.length base) target)
  | _, _ => Throw (TypeError "The path argument must be of type string")
  end.

Definition sampleGetIntegrity (files : gmap string Asset) (src : string)
  : jsval :=
  match files !! src with
  | Some {| integrity := Some value |} => JStr value
  | Some _ => JUndefined
  | None => JNull
  end.

(** Two outcomes of the loop body that agree on what they did to the assets
    and to [hashByChunkId]. *)
Definition sameRewrite (a b : outcome ChunkState) : Prop :=
  match a, b with
  | Ok x, Ok y =>
      cs_assets x = cs_assets y ∧ cs_hashByChunkId x = cs_hashByChunkId y
  | Throw e, Throw e' => e = e'
  | OutOfFuel, OutOfFuel => True
  | _, _ => False
  end.

Definition withTable (st : ChunkState) (table : gmap string string)
  : ChunkState :=
  {| cs_plugin := cs_plugin st;
     cs_compilation := set_sriChunkAssets (cs_compilation st) table;
     cs_assets := cs_assets st;
     cs_hashByChunkId := cs_hashByChunkId st |}.

(** What holds of the chunks collected so far at any point of the walk: no id
    twice, and every entry is a chunk of the graph under its id. *)
Definition walked (g : gmap string Chunk) (v : list (string * Chunk)) : Prop :=
  NoDup v.*1 ∧ ∀ i ch, (i, ch) ∈ v → g !! i = Some ch.

(** The chunks of [ext] have all the chunks they load among [v]. *)
Definition closedIn (g : gmap string Chunk) (ext v : list (string * Chunk))
  : Prop :=
  ∀ i ch child, (i, ch) ∈ ext → child ∈ children ch →
                is_Some (g !! child) → child ∈ v.*1.

(** A runtime chunk that loads a chunk without output files. *)
Definition sampleGraphWithEmpty : gmap string Chunk :=
  <["B" := {| files := []; children := [] |}]>
    {[ "A" := {| files := ["a.js"]; children := ["B"] |} ]}.

Definition sampleAsset (text : string) : Asset :=
  {| a_source := RawSource text; integrity := None |}.

(** A compilation whose asset-path table names a file that chunk ["B"] does
    not have. *)
Definition sampleMismatch : Compilation :=
  set_sriChunkAssets
    (newCompilation (JStr "anonymous") {[ "b.js" := sampleAsset "let b = 1" ]})
    {[ "B" := "b-old.js" ]}.

Definition sampleGraphB : gmap string Chunk :=
  {[ "B" := {| files := ["b.js"]; children := [] |} ]}.

(** What [computeIntegrity] returns when every algorithm is supported. *)
Definition integrityText (createHash : string -> HashResult)
    (algorithms : list string) (bytes : string) : string :=
  String.concat " "
    (map (fun name =>
            name +:+ "-" +:+
            match createHash name with
            | Hash digest64 => digest64 bytes
            | Unsupported _ => EmptyString
            end) algorithms).

(** An asset after [addMissingIntegrityHashes], under supported algorithms. *)
Definition withIntegrity (createHash : string -> HashResult)
    (algorithms : list string) (a : Asset) : Asset :=
  if lacksIntegrity a then
    {| a_source := a_source a;
       integrity := Some (integrityText createHash algorithms
                            (source (a_source a))) |}
  else a.



(** A chain of three chunks with one file each; the text of the file of the
    first chunk is left open. *)
Definition sampleChain : gmap string Chunk :=
  <["C" := {| files := ["c.js"]; children := [] |}]>
    (<["B" := {| files := ["b.js"]; children := ["C"] |}]>
       {[ "A" := {| files := ["a.js"]; children := ["B"] |} ]}).

Definition sampleMarker (chunkId : string) : string :=
  sampleMakePlaceholder ["sha256"] chunkId.

Definition sampleChainAssets (textA : string) : gmap string Asset :=
  <["c.js" := sampleAsset "let c = 3"]>
    (<["b.js" := sampleAsset ("load(" +:+ sampleMarker "C" +:+ ")")]>
       {[ "a.js" := sampleAsset textA ]}).

Definition sampleChainCompilation (textA : string) : Compilation :=
  set_sriChunkAssets
    (newCompilation (JStr "anonymous") (sampleChainAssets textA))
    (<["C" := "c.js"]> (<["B" := "b.js"]> {[ "A" := "a.js" ]})).

(** The emissions a message text has left: one while the memo lacks it. *)
Definition budget (p : Plugin) (m : string) : nat :=
  if wasEmitted p m then 0%nat else 1%nat.


(** The text [warnStandardHashFunc] warns with. *)
Definition standardHashFuncWarning : string :=
  "It is recommended that at least one hash function is part of the set "
  +:+ "for which support is mandated by the specification. "
  +:+ "These are: sha256, sha384, sha512. "
  +:+ "See http://www.w3.org/TR/SRI/#cryptographic-hash-functions for more information.".

(** The text [validateHashFuncNames] reports for an option that is not an
    array. *)
Definition notAnArrayError (v : jsval) : string :=
  "options.hashFuncNames must be an array of hash function names, "
  +:+ "instead got '" +:+ toString v +:+ "'.".

(** An asset whose [integrity] is the integrity of its own bytes under the
    given algorithm names. *)
Definition integrityMatches (createHash : string -> HashResult)
    (names : list string) (a : Asset) : Prop :=
  ∃ value, integrity a = Some value
           ∧ computeIntegrity createHash names (source (a_source a)) = Ok value.

(** From [(p, c)] to [(p', c')] nothing has changed but the memo, which may
    have grown, and the warnings, which may have got more entries at their
    end. *)
Definition onlyWarned (p : Plugin) (c : Compilation) (p' : Plugin)
    (c' : Compilation) : Prop :=
  options p' = options p
  ∧ optionsValidated p' = optionsValidated p
  ∧ hwpPublicPath p' = hwpPublicPath p
  ∧ emittedMessages p ⊆ emittedMessages p'
  ∧ errors c' = errors c
  ∧ taps c' = taps c
  ∧ sriChunkAssets c' = sriChunkAssets c
  ∧ assets c' = assets c
  ∧ crossOriginLoading c' = crossOriginLoading c
  ∧ warnings c `prefix_of` warnings c'.

(** An asset that is as it was in [before], or else carries the integrity of
    its own bytes under the algorithm names of the plugin. *)
Definition keptOrMatching (createHash : string -> HashResult) (p : Plugin)
    (before : gmap string Asset) (k : string) (a : Asset) : Prop :=
  before !! k = Some a
  ∨ ∃ names, asNames (getProp (options p) "hashFuncNames") = Ok names
             ∧ integrityMatches createHash names a.

(** What one pass of [alterAssetTags] may do to a tag. *)
Definition tagProcessed (filterTag : Tag -> bool) (tag tag' : Tag) : Prop :=
  tagName tag' = tagName tag
  ∧ (∀ k, k ≠ "integrity" → k ≠ "crossorigin" →
          attributes tag' !! k = attributes tag !! k)
  ∧ (filterTag tag = false → tag' = tag)
  ∧ (is_Some (attributes tag !! "integrity") → tag' = tag)
  ∧ (filterTag tag = true → is_Some (attributes tag' !! "integrity")).

(** What [beforeHtmlGeneration] puts in [jsIntegrity] and [cssIntegrity] for
    the paths of [js] and [css]. *)
Definition integrityOf
    (getIntegrityChecksumForAsset : gmap string Asset -> string -> jsval)
    (pathRelative : jsval -> jsval -> outcome string)
    (publicPath : jsval) (files : gmap string Asset)
    (filePath value : jsval) : Prop :=
  ∃ src, pathRelative publicPath filePath = Ok src
         ∧ value = getIntegrityChecksumForAsset files src.

(** A stand-in for [util.filterTag]: scripts and links pass. *)
Definition sampleFilterTag (tag : Tag) : bool :=
  String.eqb (tagName tag) "script" || String.eqb (tagName tag) "link".

(** A page with a stylesheet and a [meta] tag in its head, and two scripts in
    its body, of which the first comes with an [integrity] attribute. *)
Definition samplePage : PluginArgs :=
  {| pa_head := [ {| tagName := "link";
                     attributes := {[ "href" := JStr "/assets/main.css" ]} |};
                  {| tagName := "meta";
                     attributes := {[ "charset" := JStr "utf-8" ]} |} ];
     pa_body := [ {| tagName := "script";
                     attributes := <["integrity" := JStr "sha256-0"]>
                                     {[ "src" := JStr "/assets/main.js" ]} |};
                  {| tagName := "script";
                     attributes := {[ "src" := JStr "/assets/main.js" ]} |} ]
  |}.

Definition samplePageAssets : gmap string Asset :=
  <["main.css" := {| a_source := RawSource "body {}";
                     integrity := Some "sha256-2" |}]>
    {[ "main.js" := {| a_source := RawSource "console.log(1)";
                       integrity := None |} ]}.

(** * Properties *)

(** ** The constructor *)

Lemma foldl_insert_lookup (l : list (string * jsval)) (t : gmap string jsval)
    (k : string) :
  foldl (fun t kv => <[kv.1 := kv.2]> t) t l !! k
  = match last (filter (fun kv => kv.1 = k) l) with
    | Some kv => Some kv.2
    | None => t !! k
    end.
Proof.
  induction l as [|x l IH] using rev_ind; [done|].
  rewrite foldl_app, filter_app. simpl.
  destruct (decide (x.1 = k)) as [Heq|Hne].
  - rewrite filter_cons_True, filter_nil by done.
    rewrite last_snoc. subst k. by rewrite lookup_insert_eq.
  - rewrite filter_cons_False, filter_nil, app_nil_r by done.
    by rewrite lookup_insert_ne.
Qed.

Lemma objectAssign_lookup (t : gmap string jsval) (src : jsval) (k : string) :
  objectAssign t src !! k = match ownProp src k with
                            | Some v => Some v
                            | None => t !! k
                            end.
Proof.
  unfold objectAssign, ownProp. rewrite foldl_insert_lookup.
  by destruct (last _).
Qed.

(** C9. The constructor throws on an argument that is neither [null], nor
    [undefined], nor of type object; it accepts the others; [null] and
    [undefined] are treated exactly as the empty object; and [enabled] is
    [true] in the resulting options unless the argument has its own
    [enabled], which then is the value kept. *)
Theorem constructor_options (opts : jsval) :
  (opts ≠ JNull → opts ≠ JUndefined → typeof opts ≠ "object" →
   SubresourceIntegrityPlugin opts
   = Throw (Error "webpack-subresource-integrity: argument must be an object"))
  ∧ (opts = JUndefined ∨ typeof opts = "object" →
     ∃ p, SubresourceIntegrityPlugin opts = Ok p)
  ∧ SubresourceIntegrityPlugin JNull = SubresourceIntegrityPlugin (JObj [])
  ∧ SubresourceIntegrityPlugin JUndefined = SubresourceIntegrityPlugin (JObj [])
  ∧ (∀ p, SubresourceIntegrityPlugin opts = Ok p →
       getProp (options p) "enabled"
       = default (JBool true) (ownProp opts "enabled")).
Proof.
  split_and!.
  - intros Hnull Hundef Hobj.
    destruct opts; try reflexivity; simpl in Hobj; congruence.
  - intros [->|Hobj]; [by eexists|].
    destruct opts; simpl in Hobj; try discriminate; by eexists.
  - reflexivity.
  - reflexivity.
  - intros p Hp.
    assert (options p = objectAssign {[ "enabled" := JBool true ]} opts) as ->.
    { destruct opts; simpl in Hp; try discriminate;
        injection Hp as <-; reflexivity. }
    unfold getProp. rewrite objectAssign_lookup.
    destruct (ownProp opts "enabled"); [done|].
    by rewrite lookup_singleton_eq.
Qed.

Lemma constructor_options_witness :
  SubresourceIntegrityPlugin (JStr "sha256")
  = Throw (Error "webpack-subresource-integrity: argument must be an object")
  ∧ (∃ p, SubresourceIntegrityPlugin (JObj [("enabled", JBool false)]) = Ok p).
Proof.
  split.
  - apply (constructor_options (JStr "sha256")); discriminate.
  - apply (constructor_options (JObj [("enabled", JBool false)])).
    right. reflexivity.
Defined.

(** ** Diagnostics and the message memo *)

Lemma append_inj_r (a b c : string) : a +:+ b = a +:+ c → b = c.
Proof.
  induction a as [|ch a IH]; simpl; [done|].
  intros H. injection H as H. auto.
Qed.

Lemma emitMessageOnce_seen (p : Plugin) (msgs : list exn) (m : string) :
  wasEmitted p m = true → emitMessageOnce p msgs m = (p, msgs).
Proof. unfold emitMessageOnce. by intros ->. Qed.

Lemma emitMessageOnce_fresh (p : Plugin) (msgs : list exn) (m : string) :
  wasEmitted p m = false →
  emitMessageOnce p msgs m
  = (set_emittedMessages p ({[ m ]} ∪ emittedMessages p), emitMessage msgs m).
Proof. unfold emitMessageOnce. by intros ->. Qed.

Lemma wasEmitted_add (p : Plugin) (m m' : string) :
  wasEmitted (set_emittedMessages p ({[ m ]} ∪ emittedMessages p)) m'
  = bool_decide (m' = m) || wasEmitted p m'.
Proof.
  unfold wasEmitted. simpl.
  destruct (decide (m' = m)) as [->|Hne].
  - rewrite (bool_decide_eq_true_2 (m ∈ {[ m ]} ∪ emittedMessages p))
      by set_solver.
    by rewrite (bool_decide_eq_true_2 (m = m)).
  - rewrite (bool_decide_eq_false_2 (m' = m)) by done. simpl.
    f_equal. apply bool_decide_ext. set_solver.
Qed.

Lemma emitMessageOnce_options (p : Plugin) (msgs : list exn) (m : string) :
  options (emitMessageOnce p msgs m).1 = options p
  ∧ optionsValidated (emitMessageOnce p msgs m).1 = optionsValidated p
  ∧ hwpPublicPath (emitMessageOnce p msgs m).1 = hwpPublicPath p.
Proof. unfold emitMessageOnce. by destruct (wasEmitted p m). Qed.

Lemma warnOnce_eq (p : Plugin) (c : Compilation) (m : string) :
  warnOnce p c m
  = ((emitMessageOnce p (warnings c) m).1,
     set_warnings c (emitMessageOnce p (warnings c) m).2).
Proof. unfold warnOnce. by destruct (emitMessageOnce _ _ _). Qed.

Lemma errorOnce_eq (p : Plugin) (c : Compilation) (m : string) :
  errorOnce p c m
  = ((emitMessageOnce p (errors c) m).1,
     set_errors c (emitMessageOnce p (errors c) m).2).
Proof. unfold errorOnce. by destruct (emitMessageOnce _ _ _). Qed.

Lemma warnOnce_options (p : Plugin) (c : Compilation) (m : string) :
  options (warnOnce p c m).1 = options p
  ∧ optionsValidated (warnOnce p c m).1 = optionsValidated p.
Proof.
  rewrite warnOnce_eq. simpl.
  destruct (emitMessageOnce_options p (warnings c) m) as (?&?&?). done.
Qed.

Lemma warnOnce_frame (p : Plugin) (c : Compilation) (m : string) :
  errors (warnOnce p c m).2 = errors c
  ∧ assets (warnOnce p c m).2 = assets c
  ∧ sriChunkAssets (warnOnce p c m).2 = sriChunkAssets c
  ∧ taps (warnOnce p c m).2 = taps c
  ∧ crossOriginLoading (warnOnce p c m).2 = crossOriginLoading c.
Proof. rewrite warnOnce_eq. done. Qed.

Lemma warnOnce_fresh (p : Plugin) (c : Compilation) (m : string) :
  wasEmitted p m = false →
  warnings (warnOnce p c m).2
  = warnings c ++ [Error ("webpack-subresource-integrity: " +:+ m)].
Proof. intros H. rewrite warnOnce_eq, emitMessageOnce_fresh by done. done. Qed.

Lemma warnOnce_seen (p : Plugin) (c : Compilation) (m : string) :
  wasEmitted p m = true → warnOnce p c m = (p, c).
Proof.
  intros H. rewrite warnOnce_eq, emitMessageOnce_seen by done.
  by destruct c.
Qed.

Lemma filter_one_length (x y : exn) :
  length (filter (fun e => e = y) [x]) = if bool_decide (x = y) then 1%nat else 0%nat.
Proof.
  case_bool_decide.
  - by rewrite filter_cons_True, filter_nil.
  - by rewrite filter_cons_False, filter_nil.
Qed.

Lemma diagnostic_eq (m m' : string) :
  bool_decide (Error ("webpack-subresource-integrity: " +:+ m')
               = Error ("webpack-subresource-integrity: " +:+ m))
  = bool_decide (m' = m).
Proof.
  apply bool_decide_ext. split.
  - intros [= H]. by apply append_inj_r in H.
  - by intros ->.
Qed.

Lemma timesEmitted_warning (c : Compilation) (m m' : string) :
  timesEmitted (set_warnings c (emitMessage (warnings c) m')) m
  = (timesEmitted c m + if bool_decide (m' = m) then 1 else 0)%nat.
Proof.
  unfold timesEmitted, emitMessage, set_warnings. cbn [warnings errors].
  rewrite !filter_app, !length_app, filter_one_length, diagnostic_eq. lia.
Qed.

Lemma timesEmitted_error (c : Compilation) (m m' : string) :
  timesEmitted (set_errors c (emitMessage (errors c) m')) m
  = (timesEmitted c m + if bool_decide (m' = m) then 1 else 0)%nat.
Proof.
  unfold timesEmitted, emitMessage, set_errors. cbn [warnings errors].
  rewrite !filter_app, !length_app, filter_one_length, diagnostic_eq. lia.
Qed.

Lemma emitOnceTo_budget (sink : Sink) (p : Plugin) (c : Compilation)
    (m m' : string) :
  (timesEmitted (emitOnceTo sink p c m').2 m + budget (emitOnceTo sink p c m').1 m
   ≤ timesEmitted c m + budget p m)%nat.
Proof.
  destruct (wasEmitted p m') eqn:Hseen.
  - assert (emitOnceTo sink p c m' = (p, c)) as ->; [|done].
    destruct sink; simpl.
    + by apply warnOnce_seen.
    + rewrite errorOnce_eq, emitMessageOnce_seen by done. by destruct c.
  - unfold budget.
    destruct sink; simpl.
    + rewrite warnOnce_eq, emitMessageOnce_fresh by done. simpl.
      rewrite timesEmitted_warning, wasEmitted_add.
      case_bool_decide as Hm.
      * subst m'. rewrite bool_decide_eq_true_2 by done. simpl.
        rewrite Hseen. lia.
      * rewrite bool_decide_eq_false_2 by congruence. simpl. lia.
    + rewrite errorOnce_eq, emitMessageOnce_fresh by done. simpl.
      rewrite timesEmitted_error, wasEmitted_add.
      case_bool_decide as Hm.
      * subst m'. rewrite bool_decide_eq_true_2 by done. simpl.
        rewrite Hseen. lia.
      * rewrite bool_decide_eq_false_2 by congruence. simpl. lia.
Qed.

Lemma runCalls_budget (calls : list (Sink * string)) (p : Plugin)
    (c : Compilation) (m : string) :
  (timesEmitted (runCalls p c calls).2 m + budget (runCalls p c calls).1 m
   ≤ timesEmitted c m + budget p m)%nat.
Proof.
  unfold runCalls.
  induction calls as [|call calls IH] using rev_ind; [done|].
  rewrite foldl_app. simpl.
  etrans; [apply emitOnceTo_budget|]. apply IH.
Qed.

Lemma runBuilds_budget (builds : list (Compilation * list (Sink * string)))
    (p : Plugin) (m : string) :
  Forall (fun b => warnings b.1 = [] ∧ errors b.1 = []) builds →
  (sum_list (map (fun c => timesEmitted c m) (runBuilds p builds).2)
   + budget (runBuilds p builds).1 m ≤ budget p m)%nat.
Proof.
  revert p. induction builds as [|[c calls] builds IH]; intros p Hfresh.
  - simpl. lia.
  - inversion Hfresh as [|? ? [Hw He] Hrest]; subst. simpl in Hw, He.
    simpl. pose proof (runCalls_budget calls p c m) as Hone.
    destruct (runCalls p c calls) as [p' c'] eqn:Hrun. simpl in Hone.
    specialize (IH p' Hrest).
    destruct (runBuilds p' builds) as [p'' cs]. simpl in *.
    assert (timesEmitted c m = 0%nat) as Hzero.
    { unfold timesEmitted. by rewrite Hw, He. }
    lia.
Qed.

(** C4 (as amended). Over the whole life of a plugin instance, whatever the
    builds and whatever the calls to [warnOnce] and [errorOnce] in them, the
    diagnostic of a given message text is listed at most once in all the
    compilations together, and not at all when the memo of the instance
    already holds the text when the first build starts. *)
Theorem message_emitted_once_per_instance
    (builds : list (Compilation * list (Sink * string))) (p : Plugin)
    (m : string) :
  Forall (fun b => warnings b.1 = [] ∧ errors b.1 = []) builds →
  (sum_list (map (fun c => timesEmitted c m) (runBuilds p builds).2) ≤ 1)%nat
  ∧ (wasEmitted p m = true →
     sum_list (map (fun c => timesEmitted c m) (runBuilds p builds).2) = 0%nat).
Proof.
  intros Hfresh. pose proof (runBuilds_budget builds p m Hfresh) as H.
  unfold budget in H at 2. split.
  - destruct (wasEmitted p m); lia.
  - intros Hseen. rewrite Hseen in H. lia.
Qed.

Lemma message_emitted_once_per_instance_witness :
  (sum_list
     (map (fun c => timesEmitted c "stale")
        (runBuilds samplePlugin
           [ (newCompilation (JStr "anonymous") ∅,
              [(ToWarnings, "stale"); (ToErrors, "stale")]);
             (newCompilation (JStr "anonymous") ∅, [(ToWarnings, "stale")]) ]).2)
   ≤ 1)%nat.
Proof.
  apply (message_emitted_once_per_instance
           [ (newCompilation (JStr "anonymous") ∅,
              [(ToWarnings, "stale"); (ToErrors, "stale")]);
             (newCompilation (JStr "anonymous") ∅, [(ToWarnings, "stale")]) ]
           samplePlugin "stale").
  repeat constructor.
Defined.

(** C4, the claim as stated fails: the memo belongs to the plugin instance.
    A second build, started by [thisCompilation] on a new compilation, finds
    the text of the first build in the memo and does not list it again. *)
Lemma second_build_keeps_memo :
  let fresh := newCompilation (JStr "anonymous") ∅ in
  let afterFirst := warnOnce samplePlugin fresh "stale" in
  let secondStart := thisCompilation sampleCreateHash true afterFirst.1 fresh in
  warnings afterFirst.2 = [Error "webpack-subresource-integrity: stale"]
  ∧ warnings secondStart.2 = []
  ∧ wasEmitted secondStart.1 "stale" = true
  ∧ warnings (warnOnce secondStart.1 secondStart.2 "stale").2 = [].
Proof. vm_compute. auto. Qed.

(** ** Option validation *)

Section Validation.

Variable createHash : string -> HashResult.

Lemma disable_frame (p : Plugin) :
  optionsValidated (disable p) = optionsValidated p
  ∧ emittedMessages (disable p) = emittedMessages p
  ∧ getProp (options (disable p)) "enabled" = JBool false
  ∧ getProp (options (disable p)) "hashFuncNames"
    = getProp (options p) "hashFuncNames".
Proof.
  unfold disable, set_options, getProp. cbn [options optionsValidated emittedMessages].
  split_and!; [done|done| |].
  - by rewrite lookup_insert_eq.
  - by rewrite lookup_insert_ne.
Qed.

Lemma warnStandardHashFunc_validated (p : Plugin) (c : Compilation)
    (names : list jsval) :
  optionsValidated (warnStandardHashFunc p c names).1 = optionsValidated p.
Proof.
  unfold warnStandardHashFunc.
  destruct (negb _); [|done]. apply warnOnce_options.
Qed.

Lemma validateHashFuncNames_validated (p : Plugin) (c : Compilation) :
  optionsValidated (validateHashFuncNames createHash p c).1 = optionsValidated p.
Proof.
  unfold validateHashFuncNames.
  destruct (getProp (options p) "hashFuncNames");
    try (cbn [fst]; apply disable_frame).
  destruct (every _ c elems) as [c' ok]. destruct ok; cbn [negb].
  - apply warnStandardHashFunc_validated.
  - apply disable_frame.
Qed.

End Validation.

Section BadNames.

Variable createHash : string -> HashResult.

Lemma validateHashFuncName_valid (c : Compilation) (e : jsval) :
  validName createHash e = true →
  validateHashFuncName createHash c e = (c, true).
Proof.
  unfold validName, validateHashFuncName.
  destruct e; try discriminate. by destruct (createHash s).
Qed.

Lemma validateHashFuncName_invalid (c : Compilation) (e : jsval) :
  validName createHash e = false →
  ∃ text, validateHashFuncName createHash c e = (error c text, false).
Proof.
  unfold validName, validateHashFuncName.
  destruct e; try (intros _; by eexists).
  destruct (createHash s); [intros _; by eexists|discriminate].
Qed.

Lemma every_validateHashFuncName (c : Compilation) (elems : list jsval) :
  every (validateHashFuncName createHash) c elems
  = match find (fun e => negb (validName createHash e)) elems with
    | Some bad => ((validateHashFuncName createHash c bad).1, false)
    | None => (c, true)
    end.
Proof.
  induction elems as [|e elems IH]; [done|].
  cbn [every find]. destruct (validName createHash e) eqn:He; cbn [negb].
  - rewrite validateHashFuncName_valid by done. apply IH.
  - destruct (validateHashFuncName_invalid c e He) as [text ->]. done.
Qed.

Lemma error_frame (c : Compilation) (text : string) :
  errors (error c text)
  = errors c ++ [Error ("webpack-subresource-integrity: " +:+ text)]
  ∧ warnings (error c text) = warnings c
  ∧ taps (error c text) = taps c
  ∧ assets (error c text) = assets c.
Proof. done. Qed.

(** C3 (as amended). When [hashFuncNames] is an array with an entry that
    validation rejects (an unsupported name, or something that is not a
    string), validation disables the plugin and lists exactly one new error,
    the one of the first such entry: it stops there.  This happens in
    [thisCompilation], before any hook is tapped, so that nothing of the
    build is hashed: the hooks and the assets of the compilation are as
    before. *)
Theorem first_bad_name_disables (compilerHooks : bool) (p : Plugin)
    (c : Compilation) (elems : list jsval) (bad : jsval) :
  getProp (options p) "hashFuncNames" = JArr elems →
  find (fun e => negb (validName createHash e)) elems = Some bad →
  validateHashFuncNames createHash p c
  = (disable p, (validateHashFuncName createHash c bad).1)
  ∧ (∃ text, errors (validateHashFuncName createHash c bad).1
             = errors c ++ [Error ("webpack-subresource-integrity: " +:+ text)]
             ∧ ∀ name message,
                 bad = JStr name → createHash name = Unsupported message →
                 text = "Cannot use hash function '" +:+ name +:+ "': " +:+ message)
  ∧ (optionsValidated p = false →
     let result := thisCompilation createHash compilerHooks p c in
     getProp (options result.1) "enabled" = JBool false
     ∧ (∃ text, errors result.2
                = errors c ++ [Error ("webpack-subresource-integrity: " +:+ text)])
     ∧ taps result.2 = taps c
     ∧ assets result.2 = assets c).
Proof.
  intros Hnames Hbad.
  assert (validName createHash bad = false) as Hinvalid.
  { apply find_some in Hbad as [_ H]. by apply negb_true_iff in H. }
  assert (∀ q d, getProp (options q) "hashFuncNames" = JArr elems →
            validateHashFuncNames createHash q d
            = (disable q, (validateHashFuncName createHash d bad).1)) as Hrun.
  { intros q d Hq. unfold validateHashFuncNames.
    rewrite Hq, every_validateHashFuncName, Hbad. done. }
  split_and!.
  - by apply Hrun.
  - destruct (validateHashFuncName_invalid c bad Hinvalid) as [text Htext].
    exists text. rewrite Htext. split; [apply error_frame|].
    intros name message -> Hname. revert Htext.
    unfold validateHashFuncName. rewrite Hname.
    intros [= H]. apply app_inj_tail in H as [_ H].
    injection H as H. by apply append_inj_r in H.
  - intros Hfirst result. subst result.
    unfold thisCompilation, validateOptions. rewrite Hfirst.
    set (p1 := set_optionsValidated p true).
    assert (∃ p2 c2,
              (if truthy (getProp (options p1) "enabled")
                  && negb (truthy (crossOriginLoading c))
               then warnOnce p1 c crossOriginWarning else (p1, c)) = (p2, c2)
              ∧ options p2 = options p ∧ errors c2 = errors c
              ∧ taps c2 = taps c ∧ assets c2 = assets c)
      as (p2 & c2 & -> & Hopts & Herr & Htaps & Hassets).
    { destruct (truthy _ && negb _).
      - exists (warnOnce p1 c crossOriginWarning).1,
               (warnOnce p1 c crossOriginWarning).2.
        split; [by destruct (warnOnce _ _ _)|].
        destruct (warnOnce_options p1 c crossOriginWarning) as [-> _].
        destruct (warnOnce_frame p1 c crossOriginWarning)
          as (-> & -> & _ & -> & _). done.
      - by exists p1, c. }
    rewrite Hrun by (by rewrite Hopts).
    destruct (disable_frame p2) as (_ & _ & Hoff & _).
    rewrite Hoff. cbn [truthy negb fst snd].
    destruct (validateHashFuncName_invalid c2 bad Hinvalid) as [text ->].
    cbn [fst]. destruct (error_frame c2 text) as (-> & _ & -> & ->).
    split_and!; [done| |done|done].
    exists text. by rewrite Herr.
Qed.

End BadNames.

Lemma first_bad_name_disables_witness :
  let p := set_options samplePlugin
             (<["hashFuncNames" := JArr [JStr "sha256"; JStr "md0"]]>
                (options samplePlugin)) in
  let c := newCompilation (JStr "anonymous") ∅ in
  validateHashFuncNames sampleCreateHash p c
  = (disable p, (validateHashFuncName sampleCreateHash c (JStr "md0")).1).
Proof.
  intros p c.
  apply (first_bad_name_disables sampleCreateHash true p c
           [JStr "sha256"; JStr "md0"] (JStr "md0")); reflexivity.
Defined.

(** C3, the claim as stated fails: of two unsupported names only the first
    gets a diagnostic. *)
Lemma second_bad_name_unreported :
  let p := set_options samplePlugin
             (<["hashFuncNames" := JArr [JStr "foo"; JStr "bar"]]>
                (options samplePlugin)) in
  let result := validateOptions sampleCreateHash p
                  (newCompilation (JStr "anonymous") ∅) in
  validName sampleCreateHash (JStr "foo") = false
  ∧ validName sampleCreateHash (JStr "bar") = false
  ∧ errors result.2
    = [Error ("webpack-subresource-integrity: "
              +:+ "Cannot use hash function 'foo': Digest method not supported")]
  ∧ warnings result.2 = [].
Proof. vm_compute. auto. Qed.

(** ** The tag annotator *)

Section TagProperties.

Variable getTagSrc : Tag -> jsval.
Variable getIntegrityChecksumForAsset : gmap string Asset -> string -> jsval.
Variable pathRelative : jsval -> jsval -> outcome string.


(** C6. A tag whose attributes have an [integrity] key comes back as it
    was, whenever [processTag] returns.  A tag without one gets both
    attributes and nothing else: [integrity] is the integrity value looked up
    for the asset the tag refers to, and [crossorigin] is the configured
    [crossOriginLoading] policy, or ["anonymous"] when that is not set (a
    falsy value). *)
Theorem processTag_attributes (p : Plugin) (c : Compilation) (tag : Tag) :
  (is_Some (attributes tag !! "integrity") →
   (∀ tag', processTag getTagSrc getIntegrityChecksumForAsset pathRelative
              p c tag = Ok tag' → tag' = tag)
   ∧ (∀ src, hwpAssetPath pathRelative p (getTagSrc tag) = Ok src →
             processTag getTagSrc getIntegrityChecksumForAsset pathRelative
               p c tag = Ok tag))
  ∧ (attributes tag !! "integrity" = None →
     ∀ src, hwpAssetPath pathRelative p (getTagSrc tag) = Ok src →
       ∃ tag', processTag getTagSrc getIntegrityChecksumForAsset pathRelative
                 p c tag = Ok tag'
         ∧ tagName tag' = tagName tag
         ∧ attributes tag' !! "integrity"
           = Some (getIntegrityChecksumForAsset (assets c) src)
         ∧ attributes tag' !! "crossorigin"
           = Some (if truthy (crossOriginLoading c) then crossOriginLoading c
                   else JStr "anonymous")
         ∧ ∀ k, k ≠ "integrity" → k ≠ "crossorigin" →
                attributes tag' !! k = attributes tag !! k).
Proof.
  split.
  - intros Hhas. unfold processTag.
    rewrite (bool_decide_eq_true_2 _ Hhas). cbn [negb]. split.
    + intros tag'. destruct (hwpAssetPath _ _ _); cbn; congruence.
    + by intros src ->.
  - intros Hnone src Hsrc. unfold processTag. rewrite Hsrc. cbn [mbind outcome_bind].
    rewrite bool_decide_eq_false_2 by (rewrite Hnone; by intros [? ?]).
    cbn [negb]. eexists. split; [reflexivity|].
    unfold set_attributes, js_or. cbn [tagName attributes].
    split_and!.
    + done.
    + by rewrite lookup_insert_ne, lookup_insert_eq.
    + by rewrite lookup_insert_eq.
    + intros k Hi Hc. by rewrite !lookup_insert_ne.
Qed.

End TagProperties.

Lemma processTag_attributes_witness :
  let p := set_hwpPublicPath samplePlugin (JStr "/assets/") in
  let c := newCompilation (JBool false)
             {[ "main.js" := {| a_source := RawSource "console.log(1)";
                                integrity := Some "sha256-1" |} ]} in
  let kept := {| tagName := "script";
                 attributes := <["integrity" := JStr "sha256-0"]>
                                 {[ "src" := JStr "/assets/main.js" ]} |} in
  let bare := {| tagName := "script";
                 attributes := {[ "src" := JStr "/assets/main.js" ]} |} in
  processTag sampleGetTagSrc sampleGetIntegrity samplePathRelative p c kept
  = Ok kept
  ∧ ∃ tag', processTag sampleGetTagSrc sampleGetIntegrity samplePathRelative
              p c bare = Ok tag'
            ∧ tagName tag' = "script"
            ∧ attributes tag' !! "integrity" = Some (JStr "sha256-1")
            ∧ attributes tag' !! "crossorigin" = Some (JStr "anonymous")
            ∧ ∀ k, k ≠ "integrity" → k ≠ "crossorigin" →
                   attributes tag' !! k = attributes bare !! k.
Proof.
  intros p c kept bare. split.
  - pose proof (processTag_attributes sampleGetTagSrc sampleGetIntegrity
                  samplePathRelative p c kept) as [Hkept _].
    destruct Hkept as [_ H]; [by eexists|].
    apply (H "main.js"). reflexivity.
  - pose proof (processTag_attributes sampleGetTagSrc sampleGetIntegrity
                  samplePathRelative p c bare) as [_ Hbare].
    apply (Hbare eq_refl "main.js"). reflexivity.
Defined.

(** ** The loop of [processChunk] *)

Section Rewrite.

Variable createHash : string -> HashResult.
Variable makePlaceholder : list string -> string -> string.

Lemma mapSet_keys {V : Type} (m : list (string * V)) (k k' : string) (v : V) :
  k' ∈ (mapSet m k v).*1 ↔ k' = k ∨ k' ∈ m.*1.
Proof.
  induction m as [|[k0 v0] m IH]; simpl.
  - rewrite list_elem_of_singleton. set_solver.
  - case_decide as Hk; simpl; rewrite !elem_of_cons.
    + subst k0. tauto.
    + rewrite IH. tauto.
Qed.

Lemma replaceAsset_options (p p' : Plugin) (assets : gmap string Asset)
    (hashByChunkId : list (string * option string)) (chunkFile : string) :
  options p = options p' →
  replaceAsset createHash makePlaceholder p assets hashByChunkId chunkFile
  = replaceAsset createHash makePlaceholder p' assets hashByChunkId chunkFile.
Proof. intros H. unfold replaceAsset. by rewrite H. Qed.

Lemma warnIfHotUpdate_options (p : Plugin) (c : Compilation) (src : string) :
  options (warnIfHotUpdate p c src).1 = options p.
Proof.
  unfold warnIfHotUpdate. destruct (index 0 _ src); [|done].
  apply warnOnce_options.
Qed.

Lemma processSourcePath_sameRewrite (st1 st2 : ChunkState) (id path : string) :
  options (cs_plugin st1) = options (cs_plugin st2) →
  cs_assets st1 = cs_assets st2 →
  cs_hashByChunkId st1 = cs_hashByChunkId st2 →
  sameRewrite (processSourcePath createHash makePlaceholder st1 id path)
              (processSourcePath createHash makePlaceholder st2 id path).
Proof.
  intros Hopts Hassets Hmap. unfold processSourcePath.
  rewrite Hassets, Hmap.
  destruct (cs_assets st2 !! path) as [asset|]; [|done].
  pose proof (warnIfHotUpdate_options (cs_plugin st1) (cs_compilation st1)
                (source (a_source asset))) as H1.
  pose proof (warnIfHotUpdate_options (cs_plugin st2) (cs_compilation st2)
                (source (a_source asset))) as H2.
  destruct (warnIfHotUpdate (cs_plugin st1) _ _) as [p1 c1].
  destruct (warnIfHotUpdate (cs_plugin st2) _ _) as [p2 c2].
  cbn [fst] in H1, H2.
  rewrite (replaceAsset_options p1 p2) by congruence.
  destruct (replaceAsset _ _ p2 _ _ _) as [[assets' newAsset]| |]; done.
Qed.

Lemma processSourcePath_keys (st st' : ChunkState) (id path : string) :
  processSourcePath createHash makePlaceholder st id path = Ok st' →
  ∀ k, k ∈ (cs_hashByChunkId st').*1 ↔ k = id ∨ k ∈ (cs_hashByChunkId st).*1.
Proof.
  unfold processSourcePath.
  destruct (cs_assets st !! path) as [asset|]; [|done].
  destruct (warnIfHotUpdate _ _ _) as [p c].
  destruct (replaceAsset _ _ _ _ _ _) as [[assets' newAsset]| |]; [|done|done].
  intros [= <-] k. cbn [cs_hashByChunkId]. apply mapSet_keys.
Qed.

Lemma processChildChunk_empty (st : ChunkState) (id : string) (ch : Chunk) :
  files ch = [] →
  processChildChunk createHash makePlaceholder st (id, ch) = Ok st.
Proof. intros H. unfold processChildChunk. by rewrite H. Qed.

Lemma processChildChunk_keys (st st' : ChunkState) (id : string) (ch : Chunk) :
  processChildChunk createHash makePlaceholder st (id, ch) = Ok st' →
  ∀ k, k ∈ (cs_hashByChunkId st').*1 →
       k ∈ (cs_hashByChunkId st).*1 ∨ (k = id ∧ files ch ≠ []).
Proof.
  unfold processChildChunk.
  destruct (files ch) as [|first rest] eqn:Hfiles.
  - intros [= <-] k Hk. by left.
  - intros Hrun k Hk.
    assert (∃ st0 path, cs_hashByChunkId st0 = cs_hashByChunkId st
              ∧ processSourcePath createHash makePlaceholder st0 id path = Ok st')
      as (st0 & path & Hsame & Hstep).
    { destruct (sriChunkAssets (cs_compilation st) !! id) as [path|].
      - case_bool_decide.
        + by exists st, path.
        + by exists (withDiagnostics st
                    (warnOnce (cs_plugin st) (cs_compilation st)
                       (cannotDetermineAsset id (Some path) first))), first.
      - by exists (withDiagnostics st
                  (warnOnce (cs_plugin st) (cs_compilation st)
                     (cannotDetermineAsset id None first))), first. }
    pose proof (proj1 (processSourcePath_keys _ _ _ _ Hstep k) Hk) as [Heq|Hin].
    + by right.
    + left. by rewrite <- Hsame.
Qed.

Lemma forEachChunk_keys (l : list (string * Chunk)) (st st' : ChunkState) :
  forEachChunk createHash makePlaceholder st l = Ok st' →
  ∀ k, k ∈ (cs_hashByChunkId st').*1 →
       k ∈ (cs_hashByChunkId st).*1
       ∨ ∃ ch, (k, ch) ∈ l ∧ files ch ≠ [].
Proof.
  revert st. induction l as [|[id ch] l IH]; intros st; cbn [forEachChunk].
  - intros [= <-] k Hk. by left.
  - destruct (processChildChunk _ _ st (id, ch)) as [st1| |] eqn:Hstep;
      cbn [mbind outcome_bind]; [|done|done].
    intros Hrest k Hk.
    destruct (IH st1 Hrest k Hk) as [Hk1|(ch' & Hin & Hfiles)].
    + destruct (processChildChunk_keys _ _ _ _ Hstep k Hk1) as [?|[-> ?]].
      * by left.
      * right. exists ch. split; [left|done].
    + right. exists ch'. split; [by right|done].
Qed.

End Rewrite.

(** ** The chunk walk *)

Lemma walked_length (g : gmap string Chunk) (v : list (string * Chunk)) :
  walked g v → (length v ≤ size g)%nat.
Proof.
  intros [Hnodup Hin].
  rewrite <- (length_fmap fst v), <- (size_dom (D := gset string) g).
  unfold size, set_size. simpl.
  apply submseteq_length, NoDup_submseteq; [done|].
  intros i Hi. apply list_elem_of_fmap in Hi as ([i' ch] & -> & Hi).
  apply elem_of_elements, elem_of_dom. exists ch. by apply Hin.
Qed.

Lemma walked_snoc (g : gmap string Chunk) (v : list (string * Chunk))
    (id : string) (ch : Chunk) :
  walked g v → id ∉ v.*1 → g !! id = Some ch → walked g (v ++ [(id, ch)]).
Proof.
  intros [Hnodup Hin] Hnew Hch. split.
  - rewrite fmap_app. apply NoDup_app. split_and!; [done| |apply NoDup_singleton].
    intros x Hx Hx'. apply list_elem_of_singleton in Hx'. simpl in Hx'. by subst.
  - intros i ch' Hi. apply elem_of_app in Hi as [Hi|Hi]; [by apply Hin|].
    apply list_elem_of_singleton in Hi. by injection Hi as -> ->.
Qed.

(** With more fuel than chunks left to find, the walk returns, and what it
    returns extends what it was given. *)
Lemma recurseChunk_total (fuel : nat) (g : gmap string Chunk) :
  ∀ (v : list (string * Chunk)) (id : string),
    walked g v → (size g < fuel + length v)%nat →
    ∃ ext, recurseChunk fuel g v id = Some (v ++ ext) ∧ walked g (v ++ ext).
Proof.
  induction fuel as [|fuel IH]; intros v id Hv Hfuel.
  - pose proof (walked_length g v Hv). lia.
  - cbn [recurseChunk]. case_bool_decide as Hseen.
    { exists []. by rewrite app_nil_r. }
    destruct (g !! id) as [ch|] eqn:Hch.
    2:{ exists []. by rewrite app_nil_r. }
    assert (∀ cs v1,
              walked g v1 → (size g < fuel + length v1)%nat →
              ∃ ext,
                foldl (fun acc child =>
                         match acc with
                         | Some seen => recurseChunk fuel g seen child
                         | None => None
                         end) (Some v1) cs = Some (v1 ++ ext)
                ∧ walked g (v1 ++ ext)) as Hfold.
    { induction cs as [|child cs IHcs]; intros v1 Hv1 Hf1.
      - exists []. by rewrite app_nil_r.
      - cbn [foldl].
        destruct (IH v1 child Hv1 Hf1) as (ext1 & -> & Hw1).
        destruct (IHcs (v1 ++ ext1) Hw1) as (ext2 & -> & Hw2).
        { rewrite length_app. lia. }
        exists (ext1 ++ ext2). by rewrite app_assoc. }
    destruct (Hfold (children ch) (v ++ [(id, ch)])) as (ext & -> & Hw).
    + by apply walked_snoc.
    + rewrite length_app. simpl. lia.
    + exists ([(id, ch)] ++ ext). by rewrite app_assoc.
Qed.

Lemma findChunks_total (g : gmap string Chunk) (root : string) :
  ∃ found, findChunks g root = Some found ∧ walked g found.
Proof.
  destruct (recurseChunk_total (S (size g)) g [] root) as (ext & H & Hw).
  - split; [constructor|]. intros i ch Hi. by apply elem_of_nil in Hi.
  - simpl. lia.
  - exists ext. done.
Qed.

Lemma foldl_recurse_none (fuel : nat) (g : gmap string Chunk) (cs : list string) :
  foldl (fun acc child =>
           match acc with
           | Some seen => recurseChunk fuel g seen child
           | None => None
           end) None cs = None.
Proof. by induction cs. Qed.

(** What the walk returns holds the chunk it was started on, and every chunk
    it added has the chunks it loads in the result. *)
Lemma recurseChunk_closed (fuel : nat) (g : gmap string Chunk) :
  ∀ (v v' : list (string * Chunk)) (id : string),
    recurseChunk fuel g v id = Some v' →
    ∃ ext, v' = v ++ ext
           ∧ (is_Some (g !! id) → id ∈ v'.*1)
           ∧ closedIn g ext v'.
Proof.
  induction fuel as [|fuel IH]; intros v v' id; [done|].
  cbn [recurseChunk]. case_bool_decide as Hseen.
  { intros [= <-]. exists []. rewrite app_nil_r. split_and!; [done|done|].
    intros i ch child Hi. by apply elem_of_nil in Hi. }
  destruct (g !! id) as [ch|] eqn:Hch.
  2:{ intros [= <-]. exists []. rewrite app_nil_r. split_and!; [done| |].
      - by intros [? ?].
      - intros i ch child Hi. by apply elem_of_nil in Hi. }
  assert (∀ cs v1 v2,
            foldl (fun acc child =>
                     match acc with
                     | Some seen => recurseChunk fuel g seen child
                     | None => None
                     end) (Some v1) cs = Some v2 →
            ∃ ext, v2 = v1 ++ ext
                   ∧ (∀ child, child ∈ cs → is_Some (g !! child) → child ∈ v2.*1)
                   ∧ closedIn g ext v2) as Hfold.
  { induction cs as [|child cs IHcs]; intros v1 v2.
    - intros [= <-]. exists []. rewrite app_nil_r. split_and!; [done| |].
      + intros child Hc. by apply elem_of_nil in Hc.
      + intros i c0 child Hi. by apply elem_of_nil in Hi.
    - cbn [foldl]. destruct (recurseChunk fuel g v1 child) as [v3|] eqn:Hrec.
      2:{ by rewrite foldl_recurse_none. }
      intros Hrest.
      destruct (IH _ _ _ Hrec) as (e1 & -> & Hchild & Hclosed1).
      destruct (IHcs _ _ Hrest) as (e2 & -> & Hcs & Hclosed2).
      exists (e1 ++ e2). rewrite app_assoc. split_and!; [done| |].
      + intros c0 Hc0 Hg. apply elem_of_cons in Hc0 as [->|Hc0]; [|by apply Hcs].
        rewrite fmap_app. apply elem_of_app. left. by apply Hchild.
      + intros i c0 c1 Hi Hc1 Hg. apply elem_of_app in Hi as [Hi|Hi].
        * rewrite fmap_app. apply elem_of_app. left.
          by apply (Hclosed1 i c0 c1).
        * by apply (Hclosed2 i c0 c1). }
  intros Hrun. destruct (Hfold _ _ _ Hrun) as (ext & -> & Hcs & Hclosed).
  exists ([(id, ch)] ++ ext). rewrite app_assoc. split_and!; [done| |].
  - intros _. rewrite !fmap_app. apply elem_of_app. left.
    apply elem_of_app. right. simpl. apply list_elem_of_singleton. done.
  - intros i c0 c1 Hi Hc1 Hg. apply elem_of_app in Hi as [Hi|Hi].
    + apply list_elem_of_singleton in Hi. injection Hi as -> ->.
      by apply Hcs.
    + by apply (Hclosed i c0 c1).
Qed.

Lemma rounds_per_id (l : list (string * Chunk)) (id : string) :
  NoDup l.*1 → (length (filter (fun x => x.1 = id) l) ≤ 1)%nat.
Proof.
  induction l as [|[k ch] l IH]; intros Hnodup; [simpl; lia|].
  rewrite fmap_cons in Hnodup. apply NoDup_cons in Hnodup as [Hk Hl].
  rewrite filter_cons. cbn [fst]. case_decide as Hid; [|by apply IH].
  subst k. destruct (filter (fun x => x.1 = id) l) as [|[k' ch'] rest] eqn:Hf;
    [done|].
  exfalso. assert ((k', ch') ∈ filter (fun x => x.1 = id) l) as Hin
    by (rewrite Hf; left).
  apply list_elem_of_filter in Hin as [Heq Hin]. cbn [fst] in Heq. subst k'.
  apply Hk, list_elem_of_fmap. by exists (id, ch').
Qed.

Section Termination.

Variable createHash : string -> HashResult.
Variable makePlaceholder : list string -> string -> string.

Lemma mapM_returns {A B : Type} (f : A → outcome B) (l : list A) :
  (∀ x, f x ≠ OutOfFuel) → mapM f l ≠ OutOfFuel.
Proof.
  intros Hf. induction l as [|x l IH]; [done|].
  cbn. specialize (Hf x). destruct (f x); [|done|done]. cbn.
  by destruct (mapM f l).
Qed.

Lemma computeIntegrity_returns (names : list string) (bytes : string) :
  computeIntegrity createHash names bytes ≠ OutOfFuel.
Proof.
  unfold computeIntegrity.
  pose proof (mapM_returns
                (fun name =>
                   match createHash name with
                   | Hash digest64 => Ok (name +:+ "-" +:+ digest64 bytes)
                   | Unsupported message => Throw (Error message)
                   end) names) as H.
  destruct (mapM _ names); [done|done|].
  exfalso. apply H; [|done]. intros x. by destruct (createHash x).
Qed.

Lemma asNames_returns (v : jsval) : asNames v ≠ OutOfFuel.
Proof.
  unfold asNames. destruct v; try done.
  apply mapM_returns. intros x. by destruct x.
Qed.

Lemma replaceAsset_returns (p : Plugin) (assets : gmap string Asset)
    (hashByChunkId : list (string * option string)) (chunkFile : string) :
  replaceAsset createHash makePlaceholder p assets hashByChunkId chunkFile
  ≠ OutOfFuel.
Proof.
  unfold replaceAsset. destruct (assets !! chunkFile) as [old|]; [|done].
  pose proof (asNames_returns (getProp (options p) "hashFuncNames")) as Hn.
  destruct (asNames _) as [names| |]; [|done|done]. cbn [mbind outcome_bind].
  match goal with
  | |- context [computeIntegrity createHash names ?b] =>
      pose proof (computeIntegrity_returns names b) as Hc;
      destruct (computeIntegrity createHash names b)
  end; done.
Qed.

Lemma processChildChunk_returns (st : ChunkState) (x : string * Chunk) :
  processChildChunk createHash makePlaceholder st x ≠ OutOfFuel.
Proof.
  assert (∀ st0 id path,
            processSourcePath createHash makePlaceholder st0 id path ≠ OutOfFuel)
    as Hstep.
  { intros st0 id path. unfold processSourcePath.
    destruct (cs_assets st0 !! path) as [asset|]; [|done].
    destruct (warnIfHotUpdate _ _ _) as [p c].
    pose proof (replaceAsset_returns p (cs_assets st0) (cs_hashByChunkId st0)
                  path) as H.
    by destruct (replaceAsset _ _ _ _ _ _) as [[assets' newAsset]| |]. }
  destruct x as [id ch]. unfold processChildChunk.
  destruct (files ch) as [|first rest]; [done|].
  destruct (sriChunkAssets _ !! id) as [path|]; [|apply Hstep].
  case_bool_decide; apply Hstep.
Qed.

Lemma forEachChunk_returns (l : list (string * Chunk)) (st : ChunkState) :
  forEachChunk createHash makePlaceholder st l ≠ OutOfFuel.
Proof.
  revert st. induction l as [|x l IH]; intros st; [done|].
  cbn [forEachChunk].
  pose proof (processChildChunk_returns st x) as H.
  destruct (processChildChunk _ _ st x); [|done|done]. apply IH.
Qed.

(** C2. On every chunk graph, cyclic or not, the walk from the root returns
    a sequence of chunks of the graph in which no chunk id occurs twice, and
    [processChunk] is one round of its loop body for each element of that
    sequence, last found first; so it comes back, with a result or an
    exception, and no chunk id gets more than one round: its asset is
    rewritten and its integrity recorded at most once.  The sequence holds
    the root, and with each chunk the chunks it loads. *)
Theorem processChunk_terminates (p : Plugin) (c : Compilation)
    (assets : gmap string Asset) (g : gmap string Chunk) (root : string) :
  ∃ found,
    findChunks g root = Some found
    ∧ NoDup found.*1
    ∧ (∀ i ch, (i, ch) ∈ found → g !! i = Some ch)
    ∧ (is_Some (g !! root) → root ∈ found.*1)
    ∧ closedIn g found found
    ∧ processChunk createHash makePlaceholder p c assets g root
      = forEachChunk createHash makePlaceholder
          {| cs_plugin := p; cs_compilation := c; cs_assets := assets;
             cs_hashByChunkId := [] |} (reverse found)
    ∧ (∀ id, (length (filter (fun x => x.1 = id) (reverse found)) ≤ 1)%nat)
    ∧ processChunk createHash makePlaceholder p c assets g root ≠ OutOfFuel.
Proof.
  destruct (findChunks_total g root) as (found & Hfound & Hnodup & Hin).
  exists found.
  destruct (recurseChunk_closed _ _ _ _ _ Hfound) as (ext & Hext & Hroot & Hclosed).
  simpl in Hext. subst ext.
  unfold processChunk. rewrite Hfound.
  split_and!; try done.
  - intros id. apply rounds_per_id.
    by rewrite fmap_reverse, reverse_Permutation.
  - apply forEachChunk_returns.
Qed.

End Termination.

(** A cycle of two chunks: the walk ends with each of them once. *)
Example findChunks_cycle :
  findChunks
    (<["B" := {| files := ["b.js"]; children := ["A"] |}]>
       {[ "A" := {| files := ["a.js"]; children := ["B"] |} ]}) "A"
  = Some [ ("A", {| files := ["a.js"]; children := ["B"] |});
           ("B", {| files := ["b.js"]; children := ["A"] |}) ].
Proof. vm_compute. reflexivity. Qed.

(** ** Chunks without files, and chunks with a stale table entry *)

(** The pre-pass records a file for a chunk when the lookup of that name in
    the assets of the compilation is truthy; whether the chunk lists the
    file is not looked at, which is how an entry can disagree with the files
    of its chunk. *)
Lemma chunkAsset_table (c : Compilation) (id asset : string) :
  sriChunkAssets (chunkAsset c id asset) !! id
  = if hasAsset (assets c) asset then Some asset
    else sriChunkAssets c !! id.
Proof.
  unfold chunkAsset. destruct (hasAsset (assets c) asset); [|done].
  cbn [set_sriChunkAssets sriChunkAssets]. by rewrite lookup_insert_eq.
Qed.


Section Fallbacks.

Variable createHash : string -> HashResult.
Variable makePlaceholder : list string -> string -> string.

(** C7. The loop body of [processChunk] returns at once on a chunk without
    output files, with the state it was given: nothing is thrown, no asset
    is rewritten, nothing is recorded.  And when [processChunk] is over, the
    keys of [hashByChunkId] do not include the id of such a chunk of the
    traversal. *)
Theorem empty_chunk_skipped (p : Plugin) (c : Compilation)
    (assets : gmap string Asset) (g : gmap string Chunk) (root id : string)
    (ch : Chunk) :
  files ch = [] →
  (∀ st, processChildChunk createHash makePlaceholder st (id, ch) = Ok st)
  ∧ (∀ found st',
       findChunks g root = Some found → (id, ch) ∈ found →
       processChunk createHash makePlaceholder p c assets g root = Ok st' →
       id ∉ (cs_hashByChunkId st').*1).
Proof.
  intros Hempty. split.
  - intros st. by apply processChildChunk_empty.
  - intros found st' Hfound Hin Hrun Hkey.
    destruct (findChunks_total g root) as (found' & Hfound' & _ & Hgraph).
    assert (found' = found) as -> by congruence.
    unfold processChunk in Hrun. rewrite Hfound in Hrun.
    destruct (forEachChunk_keys _ _ _ _ _ Hrun id Hkey)
      as [Hnil|(ch' & Hin' & Hfiles)].
    + by apply elem_of_nil in Hnil.
    + rewrite elem_of_reverse in Hin'.
      assert (ch' = ch) as ->.
      { apply Hgraph in Hin, Hin'. congruence. }
      done.
Qed.

(** C8 (as amended). For a chunk with output files whose entry in the
    asset-path table is missing or is not one of these files, the loop body
    calls [warnOnce] with the diagnostic and goes on with the first file of
    the chunk.  The call leaves the errors alone, and adds the diagnostic to
    the warnings unless the instance has emitted that text before.  What
    happens to the assets and to [hashByChunkId] is what happens when the
    table names the first file. *)
Theorem stale_table_entry_falls_back (st : ChunkState) (id : string)
    (ch : Chunk) (first : string) (rest : list string) :
  files ch = first :: rest →
  (∀ path, sriChunkAssets (cs_compilation st) !! id = Some path →
           path ∉ files ch) →
  let message :=
    cannotDetermineAsset id (sriChunkAssets (cs_compilation st) !! id) first in
  let warned := warnOnce (cs_plugin st) (cs_compilation st) message in
  processChildChunk createHash makePlaceholder st (id, ch)
  = processSourcePath createHash makePlaceholder (withDiagnostics st warned)
      id first
  ∧ errors warned.2 = errors (cs_compilation st)
  ∧ (wasEmitted (cs_plugin st) message = false →
     warnings warned.2
     = warnings (cs_compilation st)
       ++ [Error ("webpack-subresource-integrity: " +:+ message)])
  ∧ (wasEmitted (cs_plugin st) message = true →
     warned = (cs_plugin st, cs_compilation st))
  ∧ sameRewrite
      (processChildChunk createHash makePlaceholder st (id, ch))
      (processChildChunk createHash makePlaceholder
         (withTable st (<[id := first]> (sriChunkAssets (cs_compilation st))))
         (id, ch)).
Proof.
  intros Hfiles Hstale message warned.
  assert (processChildChunk createHash makePlaceholder st (id, ch)
          = processSourcePath createHash makePlaceholder
              (withDiagnostics st warned) id first) as Hstep.
  { unfold processChildChunk. rewrite Hfiles. subst warned message.
    destruct (sriChunkAssets (cs_compilation st) !! id) as [path|] eqn:Hpath;
      [|done].
    rewrite bool_decide_eq_false_2; [done|].
    rewrite <- Hfiles. by apply Hstale. }
  split_and!.
  - exact Hstep.
  - apply warnOnce_frame.
  - intros Hfresh. by apply warnOnce_fresh.
  - intros Hseen. by apply warnOnce_seen.
  - rewrite Hstep. unfold processChildChunk at 1. rewrite Hfiles.
    cbn [withTable cs_compilation set_sriChunkAssets sriChunkAssets].
    rewrite lookup_insert_eq.
    rewrite bool_decide_eq_true_2 by (apply elem_of_cons; by left).
    apply processSourcePath_sameRewrite; [|done|done].
    unfold withDiagnostics, withTable. cbn [cs_plugin fst].
    apply warnOnce_options.
Qed.

End Fallbacks.

Lemma empty_chunk_skipped_witness :
  let st := {| cs_plugin := samplePlugin;
               cs_compilation := newCompilation (JStr "anonymous") ∅;
               cs_assets := {[ "a.js" := sampleAsset "let a = 1" ]};
               cs_hashByChunkId := [] |} in
  processChildChunk sampleCreateHash sampleMakePlaceholder st
    ("B", {| files := []; children := [] |}) = Ok st
  ∧ ∃ st', processChunk sampleCreateHash sampleMakePlaceholder samplePlugin
             (set_sriChunkAssets (newCompilation (JStr "anonymous") ∅)
                {[ "A" := "a.js" ]})
             {[ "a.js" := sampleAsset "let a = 1" ]} sampleGraphWithEmpty "A"
           = Ok st'
           ∧ "B" ∉ (cs_hashByChunkId st').*1.
Proof.
  intros st.
  pose proof (empty_chunk_skipped sampleCreateHash sampleMakePlaceholder
                samplePlugin
                (set_sriChunkAssets (newCompilation (JStr "anonymous") ∅)
                   {[ "A" := "a.js" ]})
                {[ "a.js" := sampleAsset "let a = 1" ]} sampleGraphWithEmpty
                "A" "B" {| files := []; children := [] |} eq_refl)
    as [Hskip Hkeys].
  split; [apply Hskip|].
  eexists. split; [vm_compute; reflexivity|].
  eapply Hkeys; [vm_compute; reflexivity| |vm_compute; reflexivity].
  apply elem_of_cons. right. apply elem_of_cons. by left.
Defined.

Lemma stale_table_entry_falls_back_witness :
  let st := {| cs_plugin := samplePlugin;
               cs_compilation := sampleMismatch;
               cs_assets := assets sampleMismatch;
               cs_hashByChunkId := [] |} in
  let message := cannotDetermineAsset "B" (Some "b-old.js") "b.js" in
  processChildChunk sampleCreateHash sampleMakePlaceholder st
    ("B", {| files := ["b.js"]; children := [] |})
  = processSourcePath sampleCreateHash sampleMakePlaceholder
      (withDiagnostics st (warnOnce samplePlugin sampleMismatch message))
      "B" "b.js".
Proof.
  intros st message.
  apply (stale_table_entry_falls_back sampleCreateHash sampleMakePlaceholder
           st "B" {| files := ["b.js"]; children := [] |} "b.js" []).
  - reflexivity.
  - intros path Hpath. vm_compute in Hpath. injection Hpath as <-.
    intros Hin. apply list_elem_of_singleton in Hin. discriminate Hin.
Defined.

(** C8, the claim as stated fails: a second build with the same plugin
    instance meets the same stale entry and gets no warning, because the
    first build has left the text in the memo of the instance. *)
Lemma second_build_not_warned :
  match processChunk sampleCreateHash sampleMakePlaceholder samplePlugin
          sampleMismatch (assets sampleMismatch) sampleGraphB "B" with
  | Ok first =>
      warnings (cs_compilation first)
      = [Error ("webpack-subresource-integrity: "
                +:+ cannotDetermineAsset "B" (Some "b-old.js") "b.js")]
      ∧ match processChunk sampleCreateHash sampleMakePlaceholder
                (cs_plugin first) sampleMismatch (assets sampleMismatch)
                sampleGraphB "B" with
        | Ok second =>
            warnings (cs_compilation second) = []
            ∧ errors (cs_compilation second) = []
            ∧ cs_assets second = cs_assets first
        | _ => False
        end
  | _ => False
  end.
Proof. vm_compute. auto. Qed.

(** ** Missing integrity values *)

Section MissingHashes.

Variable createHash : string -> HashResult.

Lemma mapM_pure {A B : Type} (f : A → outcome B) (h : A → B) (l : list A) :
  (∀ x, x ∈ l → f x = Ok (h x)) → mapM f l = Ok (h <$> l).
Proof.
  induction l as [|x l IH]; intros Hf; [done|].
  cbn. rewrite Hf by (by left). cbn.
  rewrite IH; [done|]. intros y Hy. apply Hf. by right.
Qed.

Lemma asNames_strings (names : list string) :
  asNames (JArr (JStr <$> names)) = Ok names.
Proof.
  unfold asNames.
  rewrite (mapM_pure _ (fun e => match e with JStr n => n | _ => EmptyString end)).
  - f_equal. rewrite <- list_fmap_compose. by rewrite list_fmap_id.
  - intros x Hx. apply list_elem_of_fmap in Hx as (n & -> & _). done.
Qed.

Lemma computeIntegrity_supported (names : list string) (bytes : string) :
  Forall (fun n => validName createHash (JStr n) = true) names →
  computeIntegrity createHash names bytes
  = Ok (integrityText createHash names bytes).
Proof.
  intros Hnames. unfold computeIntegrity, integrityText.
  rewrite (mapM_pure _
             (fun name => name +:+ "-" +:+
                          match createHash name with
                          | Hash digest64 => digest64 bytes
                          | Unsupported _ => EmptyString
                          end)); [done|].
  intros n Hn. rewrite Forall_forall in Hnames. specialize (Hnames n Hn).
  unfold validName in Hnames. by destruct (createHash n).
Qed.

Lemma append_empty (a b : string) : a +:+ b = EmptyString → a = EmptyString.
Proof. by destruct a. Qed.

Lemma integrityText_nonempty (names : list string) (bytes : string) :
  names ≠ [] → integrityText createHash names bytes ≠ EmptyString.
Proof.
  destruct names as [|n names]; [done|]. intros _ H.
  unfold integrityText in H. cbn [map String.concat] in H.
  assert (n +:+ "-" +:+
          match createHash n with
          | Hash digest64 => digest64 bytes
          | Unsupported _ => EmptyString
          end = EmptyString) as Hentry.
  { destruct (map _ names); [exact H|]. by apply append_empty in H. }
  destruct n; discriminate Hentry.
Qed.

Lemma withIntegrity_has (names : list string) (a : Asset) :
  names ≠ [] → lacksIntegrity (withIntegrity createHash names a) = false.
Proof.
  intros Hnames. unfold withIntegrity.
  destruct (lacksIntegrity a) eqn:Ha; [|done].
  unfold lacksIntegrity. cbn [integrity].
  apply String.eqb_neq. by apply integrityText_nonempty.
Qed.

Lemma addMissingIntegrity_supported (p : Plugin) (names : list string)
    (entry : string * Asset) :
  getProp (options p) "hashFuncNames" = JArr (JStr <$> names) →
  Forall (fun n => validName createHash (JStr n) = true) names →
  addMissingIntegrity createHash p entry
  = Ok (entry.1, withIntegrity createHash names entry.2,
        lacksIntegrity entry.2).
Proof.
  intros Hopt Hnames. destruct entry as [k a]. unfold addMissingIntegrity,
    withIntegrity. cbn [fst snd].
  destruct (lacksIntegrity a); [|done].
  rewrite Hopt, asNames_strings. cbn [mbind outcome_bind].
  by rewrite computeIntegrity_supported.
Qed.

Lemma addMissingIntegrityHashes_supported (p : Plugin) (names : list string)
    (assets : gmap string Asset) :
  getProp (options p) "hashFuncNames" = JArr (JStr <$> names) →
  Forall (fun n => validName createHash (JStr n) = true) names →
  addMissingIntegrityHashes createHash p assets
  = Ok (withIntegrity createHash names <$> assets,
        (filter (fun entry => lacksIntegrity entry.2 = true)
                (map_to_list assets)).*1).
Proof.
  intros Hopt Hnames. unfold addMissingIntegrityHashes.
  rewrite (mapM_pure _
             (fun entry => (entry.1, withIntegrity createHash names entry.2,
                            lacksIntegrity entry.2)))
    by (intros x _; by apply addMissingIntegrity_supported).
  cbn [mbind outcome_bind]. f_equal. f_equal.
  - rewrite <- list_fmap_compose.
    rewrite <- (list_to_map_to_list assets) at 2.
    by rewrite <- list_to_map_fmap.
  - induction (map_to_list assets) as [|[k a] l IH]; [done|].
    cbn [fmap list_fmap]. rewrite !filter_cons. cbn [fst snd].
    destruct (lacksIntegrity a).
    + rewrite !decide_True by done. cbn. f_equal. exact IH.
    + rewrite !decide_False by done. exact IH.
Qed.

Lemma addMissingIntegrityHashes_settled (createHash' : string -> HashResult)
    (p : Plugin) (assets : gmap string Asset) :
  (∀ k a, assets !! k = Some a → lacksIntegrity a = false) →
  addMissingIntegrityHashes createHash' p assets = Ok (assets, []).
Proof.
  intros Hall. unfold addMissingIntegrityHashes.
  rewrite (mapM_pure _ (fun entry => (entry.1, entry.2, false))).
  - cbn [mbind outcome_bind]. f_equal. f_equal.
    + rewrite <- list_fmap_compose.
      rewrite <- (list_to_map_to_list assets) at 2. f_equal.
      rewrite <- (list_fmap_id (map_to_list assets)) at 2.
      apply list_fmap_ext. by intros _ [k a] _.
    + induction (map_to_list assets) as [|[k a] l IH]; [done|].
      cbn [fmap list_fmap]. rewrite filter_cons. cbn [snd].
      rewrite decide_False by done. exact IH.
  - intros [k a] Hin. apply elem_of_map_to_list in Hin.
    unfold addMissingIntegrity. by rewrite (Hall k a Hin).
Qed.

(** C5 (as amended). With a non-empty list of supported algorithm names, a
    run of [addMissingIntegrityHashes] returns; afterwards every asset of the
    set has a non-empty integrity value, the assets that had one keep it,
    and the others get the integrity of their bytes.  A second run, whatever
    digests the provider would give it, returns the same assets and computes
    no integrity at all. *)
Theorem addMissingIntegrityHashes_idempotent (p : Plugin)
    (names : list string) (assets : gmap string Asset) :
  getProp (options p) "hashFuncNames" = JArr (JStr <$> names) →
  names ≠ [] →
  Forall (fun n => validName createHash (JStr n) = true) names →
  ∃ assets1 hashed,
    addMissingIntegrityHashes createHash p assets = Ok (assets1, hashed)
    ∧ (∀ createHash',
         addMissingIntegrityHashes createHash' p assets1 = Ok (assets1, []))
    ∧ dom assets1 = dom assets
    ∧ (∀ k a1, assets1 !! k = Some a1 →
         (∃ value, integrity a1 = Some value ∧ value ≠ EmptyString)
         ∧ ∃ a, assets !! k = Some a
                ∧ a_source a1 = a_source a
                ∧ (lacksIntegrity a = false → a1 = a)
                ∧ (lacksIntegrity a = true →
                   computeIntegrity createHash names (source (a_source a))
                   = Ok (default EmptyString (integrity a1))))
    ∧ (∀ k, k ∈ hashed ↔ ∃ a, assets !! k = Some a ∧ lacksIntegrity a = true).
Proof.
  intros Hopt Hne Hnames.
  exists (withIntegrity createHash names <$> assets),
         (filter (fun entry => lacksIntegrity entry.2 = true)
                 (map_to_list assets)).*1.
  split_and!.
  - by apply addMissingIntegrityHashes_supported.
  - intros createHash'. apply addMissingIntegrityHashes_settled.
    intros k a1 Hk. apply lookup_fmap_Some in Hk as (a & <- & _).
    by apply withIntegrity_has.
  - by rewrite dom_fmap_L.
  - intros k a1 Hk. apply lookup_fmap_Some in Hk as (a & <- & Ha).
    pose proof (withIntegrity_has names a Hne) as Hhas. split.
    + unfold lacksIntegrity in Hhas.
      destruct (integrity (withIntegrity createHash names a)) as [value|];
        [|done].
      exists value. split; [done|]. by apply String.eqb_neq.
    + exists a. unfold withIntegrity.
      destruct (lacksIntegrity a) eqn:Hlacks; split_and!; try done.
      intros _. cbn [integrity default]. by apply computeIntegrity_supported.
  - intros k. rewrite list_elem_of_fmap. split.
    + intros ([k' a] & -> & Hin). apply list_elem_of_filter in Hin as [Hl Hin].
      apply elem_of_map_to_list in Hin. by exists a.
    + intros (a & Ha & Hl). exists (k, a). split; [done|].
      apply list_elem_of_filter. split; [done|]. by apply elem_of_map_to_list.
Qed.

End MissingHashes.

Lemma addMissingIntegrityHashes_idempotent_witness :
  ∃ assets1 hashed,
    addMissingIntegrityHashes sampleCreateHash samplePlugin
      (<["b.js" := {| a_source := RawSource "let b = 1";
                      integrity := Some "sha256-0" |}]>
         {[ "a.js" := sampleAsset "let a = 1" ]})
    = Ok (assets1, hashed)
    ∧ (∀ createHash',
         addMissingIntegrityHashes createHash' samplePlugin assets1
         = Ok (assets1, [])).
Proof.
  destruct (addMissingIntegrityHashes_idempotent sampleCreateHash samplePlugin
              ["sha256"]
              (<["b.js" := {| a_source := RawSource "let b = 1";
                              integrity := Some "sha256-0" |}]>
                 {[ "a.js" := sampleAsset "let a = 1" ]}))
    as (assets1 & hashed & Hrun & Hagain & _).
  - reflexivity.
  - discriminate.
  - repeat constructor.
  - exists assets1, hashed. split; [exact Hrun|exact Hagain].
Defined.

(** C5, the claim as stated fails: validation lets the empty list of
    algorithm names through, the integrity it gives is the empty string, and
    an asset with the empty string is hashed again by the next run. *)
Lemma empty_names_hashed_again :
  let p := set_options samplePlugin
             (<["hashFuncNames" := JArr []]> (options samplePlugin)) in
  let validated := validateOptions sampleCreateHash p
                     (newCompilation (JStr "anonymous") ∅) in
  let files : gmap string Asset := {[ "a.js" := sampleAsset "let a = 1" ]} in
  let once : gmap string Asset :=
    {[ "a.js" := {| a_source := RawSource "let a = 1";
                    integrity := Some EmptyString |} ]} in
  getProp (options validated.1) "enabled" = JBool true
  ∧ errors validated.2 = []
  ∧ addMissingIntegrityHashes sampleCreateHash validated.1 files
    = Ok (once, ["a.js"])
  ∧ addMissingIntegrityHashes sampleCreateHash validated.1 once
    = Ok (once, ["a.js"]).
Proof. vm_compute. auto. Qed.

(** ** Strings and replacements *)

Lemma append_cons (ch : ascii) (s t : string) :
  String ch s +:+ t = String ch (s +:+ t).
Proof. reflexivity. Qed.

Lemma append_nil_r (s : string) : s +:+ EmptyString = s.
Proof.
  induction s as [|ch s IH]; [done|]. by rewrite append_cons, IH.
Qed.










Lemma replaceString_none (s : string) : replaceString s [] = s.
Proof. unfold replaceString. simpl. apply append_nil_r. Qed.




(** ** A chain of three chunks *)

Section Chain.

Variable createHash : string -> HashResult.
Variable makePlaceholder : list string -> string -> string.






Lemma source_ReplaceSource (inner : Source) (replacements : list Replacement) :
  source (ReplaceSource inner replacements)
  = replaceString (source inner) replacements.
Proof. reflexivity. Qed.



End Chain.



(** * Further properties *)

(** ** The constructor and the once-only diagnostics *)

Lemma constructor_fields (opts : jsval) (p : Plugin) :
  SubresourceIntegrityPlugin opts = Ok p →
  options p = objectAssign {[ "enabled" := JBool true ]} opts
  ∧ emittedMessages p = ∅ ∧ optionsValidated p = false
  ∧ hwpPublicPath p = JUndefined.
Proof.
  intros Hp. destruct opts; simpl in Hp; try discriminate;
    injection Hp as <-; done.
Qed.



Lemma emitMessageOnce_after (p : Plugin) (msgs : list exn) (m : string) :
  wasEmitted (emitMessageOnce p msgs m).1 m = true.
Proof.
  destruct (wasEmitted p m) eqn:Hseen.
  - by rewrite emitMessageOnce_seen.
  - rewrite emitMessageOnce_fresh by done. cbn [fst].
    rewrite wasEmitted_add. by rewrite bool_decide_eq_true_2.
Qed.

Lemma errorOnce_seen (p : Plugin) (c : Compilation) (m : string) :
  wasEmitted p m = true → errorOnce p c m = (p, c).
Proof.
  intros H. rewrite errorOnce_eq, emitMessageOnce_seen by done.
  by destruct c.
Qed.

(** X2. [warnOnce] and [errorOnce] share one memo: a text that went out as a
    warning is never listed as an error afterwards, on whatever compilation,
    and a text that went out as an error is never listed as a warning. *)
Theorem once_memo_shared (p : Plugin) (c c' : Compilation) (m : string) :
  errorOnce (warnOnce p c m).1 c' m = ((warnOnce p c m).1, c')
  ∧ warnOnce (errorOnce p c m).1 c' m = ((errorOnce p c m).1, c').
Proof.
  split.
  - apply errorOnce_seen. rewrite warnOnce_eq. apply emitMessageOnce_after.
  - apply warnOnce_seen. rewrite errorOnce_eq. apply emitMessageOnce_after.
Qed.

(** X3. A text that is the name of a property every plain object inherits is in
    the memo from the start: [warnOnce] and [errorOnce] never list it.  Any
    other text is listed by the first [warnOnce] of a new instance, and is
    in the memo from then on. *)
Theorem first_warning_of_instance (m : string) :
  (m ∈ objectPrototypeKeys →
   ∀ p c, warnOnce p c m = (p, c) ∧ errorOnce p c m = (p, c))
  ∧ (m ∉ objectPrototypeKeys →
     ∀ opts p c,
       SubresourceIntegrityPlugin opts = Ok p →
       warnings (warnOnce p c m).2
       = warnings c ++ [Error ("webpack-subresource-integrity: " +:+ m)]
       ∧ errors (warnOnce p c m).2 = errors c
       ∧ wasEmitted (warnOnce p c m).1 m = true).
Proof.
  split.
  - intros Hkey p c.
    assert (wasEmitted p m = true) as Hseen.
    { unfold wasEmitted. rewrite (bool_decide_eq_true_2 _ Hkey).
      apply orb_true_r. }
    split; [by apply warnOnce_seen|by apply errorOnce_seen].
  - intros Hkey opts p c Hp.
    destruct (constructor_fields opts p Hp) as (_ & Hmemo & _).
    assert (wasEmitted p m = false) as Hfresh.
    { unfold wasEmitted. rewrite Hmemo.
      rewrite (bool_decide_eq_false_2 _ Hkey).
      rewrite bool_decide_eq_false_2; [done|]. set_solver. }
    split_and!.
    + by apply warnOnce_fresh.
    + apply warnOnce_frame.
    + rewrite warnOnce_eq. apply emitMessageOnce_after.
Qed.

Lemma first_warning_of_instance_witness :
  warnOnce samplePlugin (newCompilation JNull ∅) "toString"
  = (samplePlugin, newCompilation JNull ∅)
  ∧ ∃ p, SubresourceIntegrityPlugin JUndefined = Ok p
         ∧ warnings (warnOnce p (newCompilation JNull ∅) "stale").2
           = [Error "webpack-subresource-integrity: stale"].
Proof.
  split.
  - apply (first_warning_of_instance "toString").
    repeat (apply elem_of_cons; first [by left | right]).
  - eexists. split; [reflexivity|].
    apply (first_warning_of_instance "stale") with (opts := JUndefined);
      [|reflexivity].
    intros Hin. repeat (apply elem_of_cons in Hin as [Hin|Hin];
                        [discriminate Hin|]).
    by apply elem_of_nil in Hin.
Defined.

(** ** More on option validation *)

Section MoreValidation.

Variable createHash : string -> HashResult.

Lemma validateHashFuncNames_not_array (p : Plugin) (c : Compilation) :
  (∀ elems, getProp (options p) "hashFuncNames" ≠ JArr elems) →
  validateHashFuncNames createHash p c
  = (disable p, error c (notAnArrayError (getProp (options p) "hashFuncNames"))).
Proof.
  intros Hnot. unfold validateHashFuncNames.
  destruct (getProp (options p) "hashFuncNames") eqn:Hv; try reflexivity.
  by destruct (Hnot elems).
Qed.

(** What [validateOptions] does before it looks at the names, on an instance
    it has not seen: the options, the errors, the hooks and the table stay,
    the warnings gain at most the one about the cross-origin policy. *)
Lemma validateOptions_first (p : Plugin) (c : Compilation) :
  optionsValidated p = false →
  ∃ p2 c2,
    validateOptions createHash p c = validateHashFuncNames createHash p2 c2
    ∧ options p2 = options p ∧ optionsValidated p2 = true
    ∧ errors c2 = errors c ∧ taps c2 = taps c ∧ assets c2 = assets c
    ∧ sriChunkAssets c2 = sriChunkAssets c
    ∧ crossOriginLoading c2 = crossOriginLoading c.
Proof.
  intros Hfirst. unfold validateOptions. rewrite Hfirst.
  set (p1 := set_optionsValidated p true).
  destruct (truthy _ && negb _).
  - exists (warnOnce p1 c crossOriginWarning).1,
           (warnOnce p1 c crossOriginWarning).2.
    split; [by destruct (warnOnce _ _ _)|].
    destruct (warnOnce_options p1 c crossOriginWarning) as [-> ->].
    destruct (warnOnce_frame p1 c crossOriginWarning)
      as (-> & -> & -> & -> & ->). done.
  - by exists p1, c.
Qed.

Lemma validateHashFuncName_frame (c : Compilation) (e : jsval) :
  taps (validateHashFuncName createHash c e).1 = taps c
  ∧ assets (validateHashFuncName createHash c e).1 = assets c
  ∧ sriChunkAssets (validateHashFuncName createHash c e).1 = sriChunkAssets c
  ∧ warnings (validateHashFuncName createHash c e).1 = warnings c.
Proof.
  unfold validateHashFuncName. destruct e; try done.
  by destruct (createHash s).
Qed.

Lemma warnStandardHashFunc_frame (p : Plugin) (c : Compilation)
    (names : list jsval) :
  options (warnStandardHashFunc p c names).1 = options p
  ∧ errors (warnStandardHashFunc p c names).2 = errors c
  ∧ taps (warnStandardHashFunc p c names).2 = taps c
  ∧ assets (warnStandardHashFunc p c names).2 = assets c
  ∧ sriChunkAssets (warnStandardHashFunc p c names).2 = sriChunkAssets c.
Proof.
  unfold warnStandardHashFunc. destruct (negb _); [|done].
  match goal with
  | |- context [warnOnce p c ?m] =>
      destruct (warnOnce_options p c m) as [-> _];
      destruct (warnOnce_frame p c m) as (-> & -> & -> & -> & _)
  end. done.
Qed.

(** The names are looked at without touching the hooks, the assets or the
    table; the options keep all their entries but [enabled], which is kept
    or set to [false]. *)
Lemma validateHashFuncNames_frame (p : Plugin) (c : Compilation) :
  (options (validateHashFuncNames createHash p c).1 = options p
   ∨ options (validateHashFuncNames createHash p c).1
     = <["enabled" := JBool false]> (options p))
  ∧ taps (validateHashFuncNames createHash p c).2 = taps c
  ∧ assets (validateHashFuncNames createHash p c).2 = assets c
  ∧ sriChunkAssets (validateHashFuncNames createHash p c).2 = sriChunkAssets c.
Proof.
  unfold validateHashFuncNames.
  destruct (getProp (options p) "hashFuncNames");
    try (split; [by right|done]).
  rewrite every_validateHashFuncName.
  destruct (find _ elems) as [bad|]; cbn [negb].
  - cbn [fst snd].
    destruct (validateHashFuncName_frame c bad) as (-> & -> & -> & _).
    split; [by right|done].
  - destruct (warnStandardHashFunc_frame p c elems) as (-> & _ & -> & -> & ->).
    split; [by left|done].
Qed.

Lemma validateOptions_frame (p : Plugin) (c : Compilation) :
  (options (validateOptions createHash p c).1 = options p
   ∨ options (validateOptions createHash p c).1
     = <["enabled" := JBool false]> (options p))
  ∧ optionsValidated (validateOptions createHash p c).1 = true
  ∧ taps (validateOptions createHash p c).2 = taps c
  ∧ assets (validateOptions createHash p c).2 = assets c
  ∧ sriChunkAssets (validateOptions createHash p c).2 = sriChunkAssets c.
Proof.
  destruct (optionsValidated p) eqn:Hseen.
  - unfold validateOptions. rewrite Hseen. split; [by left|done].
  - destruct (validateOptions_first p c Hseen)
      as (p2 & c2 & -> & Hopts & Hval & _ & Htaps & Hassets & Htable & _).
    destruct (validateHashFuncNames_frame p2 c2) as (Ho & -> & -> & ->).
    rewrite validateHashFuncNames_validated, <- Hopts.
    split_and!; done.
Qed.

(** X4. Whatever the configuration, validation changes no option but [enabled],
    and [enabled] only by setting it to [false]: a plugin that was switched
    off is never switched on. *)
Theorem validation_never_enables (p : Plugin) (c : Compilation) :
  let p' := (validateOptions createHash p c).1 in
  (∀ k, k ≠ "enabled" → options p' !! k = options p !! k)
  ∧ (getProp (options p') "enabled" = getProp (options p) "enabled"
     ∨ getProp (options p') "enabled" = JBool false)
  ∧ (truthy (getProp (options p) "enabled") = false →
     truthy (getProp (options p') "enabled") = false).
Proof.
  intros p'. subst p'.
  destruct (validateOptions_frame p c) as ([-> | ->] & _).
  - split_and!; [done|by left|done].
  - split_and!.
    + intros k Hk. by rewrite lookup_insert_ne.
    + right. unfold getProp. by rewrite lookup_insert_eq.
    + intros _. unfold getProp. by rewrite lookup_insert_eq.
Qed.

(** X5. A build that finds the plugin switched off after validation taps no
    hook and leaves the table alone, and so does every later build with the
    same instance, which moreover reports nothing: the errors of a bad
    configuration are listed in the first compilation only. *)
Theorem disabled_for_later_builds (compilerHooks compilerHooks' : bool)
    (p : Plugin) (c c2 : Compilation) :
  let first := thisCompilation createHash compilerHooks p c in
  truthy (getProp (options first.1) "enabled") = false →
  taps first.2 = taps c
  ∧ sriChunkAssets first.2 = sriChunkAssets c
  ∧ thisCompilation createHash compilerHooks' first.1 c2 = (first.1, c2).
Proof.
  intros first Hoff.
  assert (first = validateOptions createHash p c) as Heq.
  { subst first. unfold thisCompilation in *.
    destruct (validateOptions createHash p c) as [p1 c1].
    destruct (negb (truthy (getProp (options p1) "enabled"))) eqn:Hneg;
      [done|].
    cbn [fst] in Hoff. rewrite Hoff in Hneg. discriminate Hneg. }
  clearbody first. subst first.
  destruct (validateOptions_frame p c) as (_ & Hval & Htaps & _ & Htable).
  destruct (validateOptions createHash p c) as [p1 c1].
  cbn [fst snd] in *. split_and!; [done|done|].
  unfold thisCompilation, validateOptions. rewrite Hval, Hoff. done.
Qed.

(** X6. An option [hashFuncNames] that is not an array, or is not there at all,
    makes the first build list one error, which quotes the value the way
    string concatenation renders it, and switches the plugin off before a
    hook is tapped. *)
Theorem not_an_array_disables (compilerHooks : bool) (p : Plugin)
    (c : Compilation) :
  (∀ elems, getProp (options p) "hashFuncNames" ≠ JArr elems) →
  optionsValidated p = false →
  let result := thisCompilation createHash compilerHooks p c in
  getProp (options result.1) "enabled" = JBool false
  ∧ errors result.2
    = errors c
      ++ [Error ("webpack-subresource-integrity: "
                 +:+ notAnArrayError (getProp (options p) "hashFuncNames"))]
  ∧ taps result.2 = taps c
  ∧ sriChunkAssets result.2 = sriChunkAssets c
  ∧ assets result.2 = assets c.
Proof.
  intros Hnot Hfirst result. subst result. unfold thisCompilation.
  destruct (validateOptions_first p c Hfirst)
    as (p2 & c2 & -> & Hopts & _ & Herr & Htaps & Hassets & Htable & _).
  rewrite validateHashFuncNames_not_array by (by rewrite Hopts).
  destruct (disable_frame p2) as (_ & _ & Hoff & _).
  rewrite Hoff. cbn [truthy negb fst snd].
  destruct (error_frame c2 (notAnArrayError (getProp (options p2) "hashFuncNames")))
    as (-> & _ & -> & ->).
  unfold getProp at 2 3. rewrite Hopts. fold (getProp (options p) "hashFuncNames").
  rewrite Herr. split_and!; try done.
Qed.

Lemma foldl_found_standard (names : list jsval) (found : bool) :
  foldl (fun found name => if isStandardHashFunc name then true else found)
        found names
  = found || existsb isStandardHashFunc names.
Proof.
  revert found. induction names as [|name names IH]; intros found.
  - by rewrite orb_false_r.
  - cbn [foldl existsb]. rewrite IH.
    destruct (isStandardHashFunc name); [by rewrite orb_true_r|done].
Qed.

(** X7. When every entry of [hashFuncNames] is the name of a supported
    algorithm (the empty array included), the names are accepted: no error,
    the options as they were.  The recommendation goes to [warnOnce] exactly
    when none of the names is [sha256], [sha384] or [sha512]. *)
Theorem valid_names_accepted (p : Plugin) (c : Compilation)
    (elems : list jsval) :
  getProp (options p) "hashFuncNames" = JArr elems →
  forallb (validName createHash) elems = true →
  validateHashFuncNames createHash p c
  = (if existsb isStandardHashFunc elems then (p, c)
     else warnOnce p c standardHashFuncWarning)
  ∧ options (validateHashFuncNames createHash p c).1 = options p
  ∧ errors (validateHashFuncNames createHash p c).2 = errors c.
Proof.
  intros Hnames Hvalid.
  assert (find (fun e => negb (validName createHash e)) elems = None) as Hfind.
  { destruct (find _ elems) as [bad|] eqn:Hbad; [|done].
    apply find_some in Hbad as [Hin Hneg].
    rewrite forallb_forall in Hvalid. rewrite (Hvalid _ Hin) in Hneg.
    discriminate Hneg. }
  assert (validateHashFuncNames createHash p c
          = (if existsb isStandardHashFunc elems then (p, c)
             else warnOnce p c standardHashFuncWarning)) as ->.
  { unfold validateHashFuncNames.
    rewrite Hnames, every_validateHashFuncName, Hfind. cbn [negb].
    unfold warnStandardHashFunc. rewrite foldl_found_standard.
    cbn [orb]. by destruct (existsb _ elems). }
  split_and!; [done| |].
  - destruct (existsb _ elems); [done|]. apply warnOnce_options.
  - destruct (existsb _ elems); [done|]. apply warnOnce_frame.
Qed.

(** *** The first call and the later ones *)

Lemma crossOrigin_not_standard : standardHashFuncWarning ≠ crossOriginWarning.
Proof.
  intros H. apply (f_equal (String.get 0%nat)) in H.
  vm_compute in H. discriminate H.
Qed.

Lemma validateHashFuncNames_bad (p : Plugin) (c : Compilation)
    (elems : list jsval) (bad : jsval) :
  getProp (options p) "hashFuncNames" = JArr elems →
  find (fun e => negb (validName createHash e)) elems = Some bad →
  ∃ text, validateHashFuncNames createHash p c = (disable p, error c text).
Proof.
  intros Hnames Hbad.
  assert (validName createHash bad = false) as Hinvalid.
  { apply find_some in Hbad as [_ H]. by apply negb_true_iff in H. }
  destruct (validateHashFuncName_invalid createHash c bad Hinvalid)
    as [text Htext].
  exists text. unfold validateHashFuncNames.
  rewrite Hnames, every_validateHashFuncName, Hbad, Htext. done.
Qed.

Lemma validateHashFuncNames_accepts (p : Plugin) (c : Compilation)
    (elems : list jsval) :
  getProp (options p) "hashFuncNames" = JArr elems →
  forallb (validName createHash) elems = true →
  validateHashFuncNames createHash p c
  = (if existsb isStandardHashFunc elems then (p, c)
     else warnOnce p c standardHashFuncWarning).
Proof.
  intros Hnames Hvalid.
  assert (find (fun e => negb (validName createHash e)) elems = None) as Hfind.
  { destruct (find _ elems) as [bad|] eqn:Hbad; [|done].
    apply find_some in Hbad as [Hin Hneg].
    rewrite forallb_forall in Hvalid. rewrite (Hvalid _ Hin) in Hneg.
    discriminate Hneg. }
  unfold validateHashFuncNames.
  rewrite Hnames, every_validateHashFuncName, Hfind. cbn [negb].
  unfold warnStandardHashFunc. rewrite foldl_found_standard.
  cbn [orb]. by destruct (existsb _ elems).
Qed.

Lemma warnOnce_warnings (p : Plugin) (c : Compilation) (m : string) :
  ∃ new, warnings (warnOnce p c m).2 = warnings c ++ new.
Proof.
  destruct (wasEmitted p m) eqn:Hseen.
  - rewrite warnOnce_seen by done. exists []. by rewrite app_nil_r.
  - rewrite warnOnce_fresh by done. by eexists.
Qed.

Lemma validateHashFuncNames_warnings (p : Plugin) (c : Compilation) :
  ∃ new, warnings (validateHashFuncNames createHash p c).2 = warnings c ++ new.
Proof.
  unfold validateHashFuncNames.
  destruct (getProp (options p) "hashFuncNames");
    try (exists []; by rewrite app_nil_r).
  rewrite every_validateHashFuncName.
  destruct (find _ elems) as [bad|]; cbn [negb].
  - exists []. cbn [snd]. rewrite app_nil_r.
    apply validateHashFuncName_frame.
  - unfold warnStandardHashFunc. destruct (negb _).
    + apply warnOnce_warnings.
    + exists []. by rewrite app_nil_r.
Qed.

(** The check of the cross-origin policy, which [validateOptions] makes on
    an instance it has not seen before it looks at the names. *)
Lemma validateOptions_checks (p : Plugin) (c : Compilation) :
  optionsValidated p = false →
  ∃ p2 c2,
    validateOptions createHash p c = validateHashFuncNames createHash p2 c2
    ∧ options p2 = options p
    ∧ errors c2 = errors c
    ∧ (∀ m, m ≠ crossOriginWarning → wasEmitted p2 m = wasEmitted p m)
    ∧ (truthy (getProp (options p) "enabled") = true →
       truthy (crossOriginLoading c) = false →
       wasEmitted p crossOriginWarning = false →
       warnings c2
       = warnings c
         ++ [Error ("webpack-subresource-integrity: " +:+ crossOriginWarning)])
    ∧ (truthy (getProp (options p) "enabled") = false
       ∨ truthy (crossOriginLoading c) = true →
       p2 = set_optionsValidated p true ∧ c2 = c).
Proof.
  intros Hfirst. unfold validateOptions. rewrite Hfirst.
  set (p1 := set_optionsValidated p true).
  change (options p1) with (options p).
  destruct (truthy (getProp (options p) "enabled")) eqn:Hon;
    [destruct (truthy (crossOriginLoading c)) eqn:Hpolicy|];
    cbn [andb negb].
  - exists p1, c. split_and!; try done.
  - exists (warnOnce p1 c crossOriginWarning).1,
           (warnOnce p1 c crossOriginWarning).2.
    split; [by destruct (warnOnce _ _ _)|].
    destruct (warnOnce_options p1 c crossOriginWarning) as [-> _].
    destruct (warnOnce_frame p1 c crossOriginWarning) as (-> & _).
    split_and!; try done.
    + intros m Hm. rewrite warnOnce_eq. cbn [fst].
      destruct (wasEmitted p1 crossOriginWarning) eqn:Hseen.
      * by rewrite emitMessageOnce_seen.
      * rewrite emitMessageOnce_fresh by done. cbn [fst].
        rewrite wasEmitted_add. by rewrite bool_decide_eq_false_2.
    + intros _ _ Hfresh. by apply warnOnce_fresh.
    + intros [?|?]; done.
  - exists p1, c. split_and!; try done.
Qed.

(** C10. A call to [validateOptions] on an instance that was validated
    returns at once with the instance and the compilation it was given: no
    diagnostic, no change of state; and every call leaves the instance
    validated, so that only the first call of an instance's life validates.
    That first call does run the checks.  It warns about a missing
    cross-origin policy when the plugin is enabled (once per text).  It
    reports an option [hashFuncNames] that is not an array, or the first
    entry that is not the name of a supported algorithm, as one error, and
    switches the plugin off.  It accepts supported names without an error
    or a change of the options, recommends a standard algorithm when none is
    among them, and does nothing but mark the instance when there is nothing
    to report. *)
Theorem validateOptions_once (p : Plugin) (c c' : Compilation) :
  let enabled := truthy (getProp (options p) "enabled") in
  let names := getProp (options p) "hashFuncNames" in
  let result := validateOptions createHash p c in
  optionsValidated result.1 = true
  ∧ validateOptions createHash result.1 c' = (result.1, c')
  ∧ (optionsValidated p = true → validateOptions createHash p c' = (p, c'))
  ∧ (optionsValidated p = false →
     (enabled = true → truthy (crossOriginLoading c) = false →
      wasEmitted p crossOriginWarning = false →
      ∃ rest,
        warnings result.2
        = warnings c
          ++ Error ("webpack-subresource-integrity: " +:+ crossOriginWarning)
             :: rest)
     ∧ ((∀ elems, names ≠ JArr elems) →
        getProp (options result.1) "enabled" = JBool false
        ∧ errors result.2
          = errors c
            ++ [Error ("webpack-subresource-integrity: "
                       +:+ notAnArrayError names)])
     ∧ (∀ elems bad,
          names = JArr elems →
          find (fun e => negb (validName createHash e)) elems = Some bad →
          getProp (options result.1) "enabled" = JBool false
          ∧ ∃ text,
              errors result.2
              = errors c ++ [Error ("webpack-subresource-integrity: " +:+ text)])
     ∧ (∀ elems,
          names = JArr elems →
          forallb (validName createHash) elems = true →
          options result.1 = options p
          ∧ errors result.2 = errors c
          ∧ (existsb isStandardHashFunc elems = false →
             wasEmitted p standardHashFuncWarning = false →
             ∃ front,
               warnings result.2
               = front
                 ++ [Error ("webpack-subresource-integrity: "
                            +:+ standardHashFuncWarning)])
          ∧ (existsb isStandardHashFunc elems = true →
             (enabled = false ∨ truthy (crossOriginLoading c) = true) →
             result = (set_optionsValidated p true, c)))).
Proof.
  intros enabled names result. subst enabled names result.
  assert (∀ q d, optionsValidated q = true →
                 validateOptions createHash q d = (q, d)) as Hskip.
  { intros q d Hq. unfold validateOptions. by rewrite Hq. }
  destruct (validateOptions_frame p c) as (_ & Hset & _).
  split_and!; [exact Hset|by apply Hskip|by apply Hskip|].
  intros Hfirst.
  destruct (validateOptions_checks p c Hfirst)
    as (p2 & c2 & -> & Hopts & Herr & Hmemo & Hwarn & Hquiet).
  assert (getProp (options p2) "hashFuncNames"
          = getProp (options p) "hashFuncNames") as Hnames2
    by (unfold getProp; by rewrite Hopts).
  split_and!.
  - intros Hon Hpolicy Hfresh.
    destruct (validateHashFuncNames_warnings p2 c2) as [rest ->].
    rewrite (Hwarn Hon Hpolicy Hfresh). exists rest.
    by rewrite <- app_assoc.
  - intros Hnot.
    rewrite validateHashFuncNames_not_array by (by rewrite Hnames2).
    cbn [fst snd]. destruct (disable_frame p2) as (_ & _ & -> & _).
    split; [done|].
    destruct (error_frame c2
                (notAnArrayError (getProp (options p2) "hashFuncNames")))
      as (-> & _).
    by rewrite Herr, Hnames2.
  - intros elems bad Hnames Hbad.
    destruct (validateHashFuncNames_bad p2 c2 elems bad) as [text ->];
      [by rewrite Hnames2|done|].
    cbn [fst snd]. destruct (disable_frame p2) as (_ & _ & -> & _).
    split; [done|]. exists text.
    destruct (error_frame c2 text) as (-> & _). by rewrite Herr.
  - intros elems Hnames Hvalid.
    rewrite (validateHashFuncNames_accepts p2 c2 elems)
      by (by rewrite ?Hnames2).
    destruct (existsb isStandardHashFunc elems) eqn:Hstd.
    + cbn [fst snd]. split_and!; [done|done|done|].
      intros _ Hoff. by destruct (Hquiet Hoff) as [-> ->].
    + destruct (warnOnce_options p2 c2 standardHashFuncWarning) as [-> _].
      destruct (warnOnce_frame p2 c2 standardHashFuncWarning) as (-> & _).
      split_and!; [done|done| |done].
      intros _ Hfresh. exists (warnings c2).
      apply warnOnce_fresh.
      rewrite Hmemo by apply crossOrigin_not_standard. exact Hfresh.
Qed.

End MoreValidation.

Lemma validateOptions_once_witness :
  let c := newCompilation (JBool false) ∅ in
  let p := (validateOptions sampleCreateHash samplePlugin c).1 in
  optionsValidated p = true
  ∧ validateOptions sampleCreateHash p (newCompilation JNull ∅)
    = (p, newCompilation JNull ∅)
  ∧ ∃ rest,
      warnings (validateOptions sampleCreateHash samplePlugin c).2
      = warnings c
        ++ Error ("webpack-subresource-integrity: " +:+ crossOriginWarning)
           :: rest.
Proof.
  intros c p.
  pose proof (validateOptions_once sampleCreateHash samplePlugin c
                (newCompilation JNull ∅)) as H.
  cbv zeta in H. destruct H as (Hset & Hagain & _ & Hfirst).
  split; [exact Hset|]. split; [exact Hagain|].
  destruct (Hfirst eq_refl) as (Hwarn & _).
  apply Hwarn; reflexivity.
Defined.

Lemma disabled_for_later_builds_witness :
  let p := set_options samplePlugin
             (<["hashFuncNames" := JArr [JStr "md0"]]> (options samplePlugin)) in
  let first := thisCompilation sampleCreateHash true p
                 (newCompilation (JStr "anonymous") ∅) in
  thisCompilation sampleCreateHash true first.1
    (newCompilation (JStr "anonymous") ∅)
  = (first.1, newCompilation (JStr "anonymous") ∅).
Proof.
  intros p first.
  apply (disabled_for_later_builds sampleCreateHash true true p
           (newCompilation (JStr "anonymous") ∅)
           (newCompilation (JStr "anonymous") ∅)).
  reflexivity.
Defined.

Lemma not_an_array_disables_witness :
  let p := {| options := {[ "enabled" := JBool true ]};
              emittedMessages := ∅; optionsValidated := false;
              hwpPublicPath := JUndefined |} in
  SubresourceIntegrityPlugin JUndefined = Ok p
  ∧ errors (thisCompilation sampleCreateHash true p
              (newCompilation (JStr "anonymous") ∅)).2
    = [Error ("webpack-subresource-integrity: "
              +:+ notAnArrayError JUndefined)].
Proof.
  intros p. split; [reflexivity|].
  destruct (not_an_array_disables sampleCreateHash true p
              (newCompilation (JStr "anonymous") ∅)) as (_ & H & _).
  - intros elems H. vm_compute in H. discriminate H.
  - reflexivity.
  - exact H.
Defined.

Lemma valid_names_accepted_witness :
  let p := set_options samplePlugin
             (<["hashFuncNames" := JArr []]> (options samplePlugin)) in
  validateHashFuncNames sampleCreateHash p (newCompilation JNull ∅)
  = warnOnce p (newCompilation JNull ∅) standardHashFuncWarning.
Proof.
  intros p.
  apply (valid_names_accepted sampleCreateHash p (newCompilation JNull ∅) []);
    reflexivity.
Defined.

(** ** More on the rewrite pipeline *)

Lemma onlyWarned_refl (p : Plugin) (c : Compilation) : onlyWarned p c p c.
Proof. unfold onlyWarned. split_and!; done. Qed.

Lemma onlyWarned_trans (p1 p2 p3 : Plugin) (c1 c2 c3 : Compilation) :
  onlyWarned p1 c1 p2 c2 → onlyWarned p2 c2 p3 c3 → onlyWarned p1 c1 p3 c3.
Proof.
  intros (H1 & H2 & H3 & H4 & H5 & H6 & H7 & H8 & H9 & H10)
         (G1 & G2 & G3 & G4 & G5 & G6 & G7 & G8 & G9 & G10).
  unfold onlyWarned. split_and!; try congruence.
  - set_solver.
  - by etrans.
Qed.

Lemma warnOnce_onlyWarned (p : Plugin) (c : Compilation) (m : string) :
  onlyWarned p c (warnOnce p c m).1 (warnOnce p c m).2.
Proof.
  destruct (wasEmitted p m) eqn:Hseen.
  - rewrite warnOnce_seen by done. apply onlyWarned_refl.
  - rewrite warnOnce_eq, emitMessageOnce_fresh by done.
    unfold onlyWarned, emitMessage. cbn. split_and!; try done.
    + set_solver.
    + by apply prefix_app_r.
Qed.

Section MoreRewrite.

Variable createHash : string -> HashResult.
Variable makePlaceholder : list string -> string -> string.

Lemma replaceAsset_Ok (p : Plugin) (assets assets' : gmap string Asset)
    (hashByChunkId : list (string * option string)) (chunkFile : string)
    (newAsset : Asset) :
  replaceAsset createHash makePlaceholder p assets hashByChunkId chunkFile
  = Ok (assets', newAsset) →
  ∃ old names,
    assets !! chunkFile = Some old
    ∧ asNames (getProp (options p) "hashFuncNames") = Ok names
    ∧ assets' = <[chunkFile := newAsset]> assets
    ∧ a_source newAsset
      = ReplaceSource (a_source old)
          (foldl (replaceMagicMarkers makePlaceholder names
                    (source (a_source old))) [] hashByChunkId)
    ∧ integrityMatches createHash names newAsset.
Proof.
  unfold replaceAsset. destruct (assets !! chunkFile) as [old|]; [|done].
  destruct (asNames _) as [names| |]; [|done|done]. cbn [mbind outcome_bind].
  match goal with
  | |- context [computeIntegrity createHash names ?b] =>
      destruct (computeIntegrity createHash names b) as [value| |] eqn:Hvalue
  end; [|done|done].
  cbn [mbind outcome_bind]. intros [= <- <-].
  exists old, names. split_and!; try done.
  exists value. done.
Qed.

(** X8. [replaceAsset] throws when there is no asset under the given name.
    When it returns, it has put a new asset in that one slot of [assets] and
    left the others alone; the new asset wraps the source of the old one,
    which is not modified, and its integrity is the integrity of its own
    bytes. *)
Theorem replaceAsset_one_slot (p : Plugin) (assets : gmap string Asset)
    (hashByChunkId : list (string * option string)) (chunkFile : string) :
  (assets !! chunkFile = None →
   ∃ msg, replaceAsset createHash makePlaceholder p assets hashByChunkId
            chunkFile = Throw (TypeError msg))
  ∧ (∀ assets' newAsset,
       replaceAsset createHash makePlaceholder p assets hashByChunkId chunkFile
       = Ok (assets', newAsset) →
       ∃ old names replacements,
         assets !! chunkFile = Some old
         ∧ asNames (getProp (options p) "hashFuncNames") = Ok names
         ∧ assets' !! chunkFile = Some newAsset
         ∧ (∀ k, k ≠ chunkFile → assets' !! k = assets !! k)
         ∧ dom assets' = dom assets
         ∧ a_source newAsset = ReplaceSource (a_source old) replacements
         ∧ integrityMatches createHash names newAsset).
Proof.
  split.
  - intros Hnone. unfold replaceAsset. rewrite Hnone. by eexists.
  - intros assets' newAsset Hrun.
    destruct (replaceAsset_Ok _ _ _ _ _ _ Hrun)
      as (old & names & Hold & Hnames & -> & Hsrc & Hmatch).
    exists old, names. eexists. split_and!; try done.
    + by rewrite lookup_insert_eq.
    + intros k Hk. by rewrite lookup_insert_ne.
    + rewrite dom_insert_L. apply elem_of_dom_2 in Hold. set_solver.
Qed.

Lemma foldl_no_marker (names : list string) (src : string)
    (hashByChunkId : list (string * option string)) :
  (∀ id hash, (id, hash) ∈ hashByChunkId →
              String.index 0 (makePlaceholder names id) src = None) →
  foldl (replaceMagicMarkers makePlaceholder names src) [] hashByChunkId = [].
Proof.
  induction hashByChunkId as [|[id hash] l IH] using rev_ind; intros Hnone;
    [done|].
  rewrite foldl_app. cbn [foldl]. rewrite IH.
  - unfold replaceMagicMarkers. cbn [fst].
    rewrite (Hnone id hash); [done|]. apply elem_of_app. right. by left.
  - intros id' hash' Hin. apply (Hnone id' hash'). apply elem_of_app. by left.
Qed.

(** X9. When the text of the asset holds none of the placeholders of the chunk
    ids recorded so far, [replaceAsset] leaves its bytes as they are: a
    missing placeholder is passed over in silence. *)
Theorem replaceAsset_without_placeholder (p : Plugin)
    (assets assets' : gmap string Asset)
    (hashByChunkId : list (string * option string)) (chunkFile : string)
    (old newAsset : Asset) (names : list string) :
  assets !! chunkFile = Some old →
  asNames (getProp (options p) "hashFuncNames") = Ok names →
  (∀ id hash, (id, hash) ∈ hashByChunkId →
     String.index 0 (makePlaceholder names id) (source (a_source old)) = None) →
  replaceAsset createHash makePlaceholder p assets hashByChunkId chunkFile
  = Ok (assets', newAsset) →
  source (a_source newAsset) = source (a_source old)
  ∧ computeIntegrity createHash names (source (a_source old))
    = Ok (default EmptyString (integrity newAsset)).
Proof.
  intros Hold Hnames Hnone Hrun.
  destruct (replaceAsset_Ok _ _ _ _ _ _ Hrun)
    as (old' & names' & Hold' & Hnames' & _ & Hsrc & value & Hvalue & Hmatch).
  assert (old' = old) as -> by congruence.
  assert (names' = names) as -> by congruence.
  rewrite foldl_no_marker in Hsrc by done.
  assert (source (a_source newAsset) = source (a_source old)) as Hbytes.
  { rewrite Hsrc, source_ReplaceSource. apply replaceString_none. }
  split; [done|]. by rewrite Hvalue, <- Hbytes.
Qed.

Lemma warnIfHotUpdate_onlyWarned (p : Plugin) (c : Compilation) (src : string) :
  onlyWarned p c (warnIfHotUpdate p c src).1 (warnIfHotUpdate p c src).2.
Proof.
  unfold warnIfHotUpdate. destruct (String.index 0 _ src).
  - apply warnOnce_onlyWarned.
  - apply onlyWarned_refl.
Qed.

Lemma processSourcePath_Ok (st st' : ChunkState) (id path : string) :
  processSourcePath createHash makePlaceholder st id path = Ok st' →
  onlyWarned (cs_plugin st) (cs_compilation st)
             (cs_plugin st') (cs_compilation st')
  ∧ ∃ newAsset names,
      asNames (getProp (options (cs_plugin st)) "hashFuncNames") = Ok names
      ∧ is_Some (cs_assets st !! path)
      ∧ cs_assets st' = <[path := newAsset]> (cs_assets st)
      ∧ integrityMatches createHash names newAsset.
Proof.
  unfold processSourcePath.
  destruct (cs_assets st !! path) as [asset|] eqn:Hasset; [|done].
  pose proof (warnIfHotUpdate_onlyWarned (cs_plugin st) (cs_compilation st)
                (source (a_source asset))) as Hwarn.
  destruct (warnIfHotUpdate _ _ _) as [p c]. cbn [fst snd] in Hwarn.
  destruct (replaceAsset _ _ p _ _ _) as [[assets' newAsset]| |] eqn:Hrun;
    [|done|done].
  cbn [mbind outcome_bind]. intros [= <-]. cbn [cs_plugin cs_compilation cs_assets].
  split; [done|].
  destruct (replaceAsset_Ok _ _ _ _ _ _ Hrun)
    as (old & names & _ & Hnames & -> & _ & Hmatch).
  exists newAsset, names. split_and!; try done.
  destruct Hwarn as (<- & _). done.
Qed.

Lemma processChildChunk_Ok (st st' : ChunkState) (x : string * Chunk) :
  processChildChunk createHash makePlaceholder st x = Ok st' →
  onlyWarned (cs_plugin st) (cs_compilation st)
             (cs_plugin st') (cs_compilation st')
  ∧ dom (cs_assets st') = dom (cs_assets st)
  ∧ ∀ k a, cs_assets st' !! k = Some a →
           keptOrMatching createHash (cs_plugin st) (cs_assets st) k a.
Proof.
  assert (∀ st0 id path,
            onlyWarned (cs_plugin st) (cs_compilation st)
                       (cs_plugin st0) (cs_compilation st0) →
            cs_assets st0 = cs_assets st →
            processSourcePath createHash makePlaceholder st0 id path = Ok st' →
            onlyWarned (cs_plugin st) (cs_compilation st)
                       (cs_plugin st') (cs_compilation st')
            ∧ dom (cs_assets st') = dom (cs_assets st)
            ∧ ∀ k a, cs_assets st' !! k = Some a →
                     keptOrMatching createHash (cs_plugin st) (cs_assets st) k a)
    as Hstep.
  { intros st0 id path Hwarned Hsame Hrun.
    destruct (processSourcePath_Ok _ _ _ _ Hrun)
      as (Hwarn & newAsset & names & Hnames & [old Hold] & -> & Hmatch).
    rewrite Hsame in *. split_and!.
    - by eapply onlyWarned_trans.
    - rewrite dom_insert_L. apply elem_of_dom_2 in Hold. set_solver.
    - intros k a Hk. destruct (decide (k = path)) as [->|Hne].
      + rewrite lookup_insert_eq in Hk. injection Hk as <-.
        right. exists names. split; [|done].
        destruct Hwarned as (<- & _). done.
      + rewrite lookup_insert_ne in Hk by done. by left. }
  destruct x as [id ch]. unfold processChildChunk.
  destruct (files ch) as [|first rest].
  { intros [= <-]. split_and!; [apply onlyWarned_refl|done|].
    intros k a Hk. by left. }
  destruct (sriChunkAssets (cs_compilation st) !! id) as [path|].
  - case_bool_decide.
    + apply Hstep; [apply onlyWarned_refl|done].
    + apply Hstep; [|done]. apply warnOnce_onlyWarned.
  - apply Hstep; [|done]. apply warnOnce_onlyWarned.
Qed.

Lemma forEachChunk_Ok (l : list (string * Chunk)) (st st' : ChunkState) :
  forEachChunk createHash makePlaceholder st l = Ok st' →
  onlyWarned (cs_plugin st) (cs_compilation st)
             (cs_plugin st') (cs_compilation st')
  ∧ dom (cs_assets st') = dom (cs_assets st)
  ∧ ∀ k a, cs_assets st' !! k = Some a →
           keptOrMatching createHash (cs_plugin st) (cs_assets st) k a.
Proof.
  revert st. induction l as [|x l IH]; intros st; cbn [forEachChunk].
  - intros [= <-]. split_and!; [apply onlyWarned_refl|done|].
    intros k a Hk. by left.
  - destruct (processChildChunk _ _ st x) as [st1| |] eqn:Hstep;
      cbn [mbind outcome_bind]; [|done|done].
    intros Hrest.
    destruct (processChildChunk_Ok _ _ _ Hstep) as (Hw1 & Hd1 & Hk1).
    destruct (IH _ Hrest) as (Hw2 & Hd2 & Hk2).
    split_and!.
    + by eapply onlyWarned_trans.
    + congruence.
    + intros k a Hk. destruct (Hk2 k a Hk) as [Hkept|(names & Hnames & Hm)].
      * by apply Hk1.
      * right. exists names. split; [|done].
        destruct Hw1 as (<- & _). done.
Qed.

(** X10. When [processChunk] returns, it has reported no error and has left the
    options, the hooks and the asset-path table alone; the warnings that
    were there are still there, in front of any new one; and no asset was
    added or removed. *)
Theorem processChunk_keeps (p : Plugin) (c : Compilation)
    (assets : gmap string Asset) (g : gmap string Chunk) (root : string)
    (st' : ChunkState) :
  processChunk createHash makePlaceholder p c assets g root = Ok st' →
  onlyWarned p c (cs_plugin st') (cs_compilation st')
  ∧ dom (cs_assets st') = dom assets.
Proof.
  unfold processChunk. destruct (findChunks g root) as [found|]; [|done].
  intros Hrun. destruct (forEachChunk_Ok _ _ _ Hrun) as (Hw & Hd & _). done.
Qed.

(** X11. When [processChunk] returns, every asset is the asset it was before, or
    else carries as [integrity] the integrity of its own final bytes: a
    rewritten asset is never left with the integrity of bytes it no longer
    has. *)
Theorem processChunk_integrity_of_final_bytes (p : Plugin) (c : Compilation)
    (assets : gmap string Asset) (g : gmap string Chunk) (root : string)
    (st' : ChunkState) :
  processChunk createHash makePlaceholder p c assets g root = Ok st' →
  ∀ k a, cs_assets st' !! k = Some a →
         assets !! k = Some a
         ∨ ∃ names value,
             asNames (getProp (options p) "hashFuncNames") = Ok names
             ∧ integrity a = Some value
             ∧ computeIntegrity createHash names (source (a_source a))
               = Ok value.
Proof.
  unfold processChunk. destruct (findChunks g root) as [found|]; [|done].
  intros Hrun k a Hk.
  destruct (forEachChunk_Ok _ _ _ Hrun) as (_ & _ & Hall).
  destruct (Hall k a Hk) as [Hkept|(names & Hnames & value & Hv & Hm)].
  - by left.
  - right. by exists names, value.
Qed.

End MoreRewrite.

Lemma replaceAsset_one_slot_witness :
  (∃ msg, replaceAsset sampleCreateHash sampleMakePlaceholder samplePlugin
            ∅ [] "a.js" = Throw (TypeError msg))
  ∧ ∃ assets' newAsset,
      replaceAsset sampleCreateHash sampleMakePlaceholder samplePlugin
        {[ "a.js" := sampleAsset "let a = 1" ]} [] "a.js"
      = Ok (assets', newAsset)
      ∧ assets' !! "a.js" = Some newAsset.
Proof.
  destruct (replaceAsset_one_slot sampleCreateHash sampleMakePlaceholder
              samplePlugin ∅ [] "a.js") as [Hthrow _].
  split; [by apply Hthrow|].
  destruct (replaceAsset_one_slot sampleCreateHash sampleMakePlaceholder
              samplePlugin {[ "a.js" := sampleAsset "let a = 1" ]} [] "a.js")
    as [_ Hok].
  let result :=
    eval vm_compute in
      (replaceAsset sampleCreateHash sampleMakePlaceholder samplePlugin
         {[ "a.js" := sampleAsset "let a = 1" ]} [] "a.js") in
  assert (replaceAsset sampleCreateHash sampleMakePlaceholder samplePlugin
            {[ "a.js" := sampleAsset "let a = 1" ]} [] "a.js" = result)
    as Hrun by (vm_compute; reflexivity).
  destruct (Hok _ _ Hrun) as (old & names & replacements & _ & _ & H & _).
  eexists _, _. split; [exact Hrun|exact H].
Defined.

Lemma replaceAsset_without_placeholder_witness :
  ∃ assets' newAsset,
    replaceAsset sampleCreateHash sampleMakePlaceholder samplePlugin
      {[ "a.js" := sampleAsset "let a = 1" ]} [("B", Some "sha256-1")] "a.js"
    = Ok (assets', newAsset)
    ∧ source (a_source newAsset) = "let a = 1".
Proof.
  eexists _, _. split; [vm_compute; reflexivity|].
  eapply (replaceAsset_without_placeholder sampleCreateHash
            sampleMakePlaceholder samplePlugin
            {[ "a.js" := sampleAsset "let a = 1" ]} _
            [("B", Some "sha256-1")] "a.js" (sampleAsset "let a = 1") _
            ["sha256"]).
  - reflexivity.
  - reflexivity.
  - intros id hash Hin. apply list_elem_of_singleton in Hin.
    injection Hin as -> ->. vm_compute. reflexivity.
  - vm_compute. reflexivity.
Defined.

Lemma processChunk_keeps_witness :
  ∃ st', processChunk sampleCreateHash sampleMakePlaceholder samplePlugin
           (sampleChainCompilation "let a = 1") (sampleChainAssets "let a = 1")
           sampleChain "A" = Ok st'
         ∧ dom (cs_assets st') = dom (sampleChainAssets "let a = 1").
Proof.
  eexists. split; [vm_compute; reflexivity|].
  refine (proj2 (processChunk_keeps sampleCreateHash sampleMakePlaceholder
                   samplePlugin (sampleChainCompilation "let a = 1")
                   (sampleChainAssets "let a = 1") sampleChain "A" _ _)).
  vm_compute. reflexivity.
Defined.

Lemma processChunk_integrity_of_final_bytes_witness :
  ∃ st', processChunk sampleCreateHash sampleMakePlaceholder samplePlugin
           (sampleChainCompilation "let a = 1") (sampleChainAssets "let a = 1")
           sampleChain "A" = Ok st'
         ∧ ∀ k a, cs_assets st' !! k = Some a →
             sampleChainAssets "let a = 1" !! k = Some a
             ∨ ∃ names value,
                 asNames (getProp (options samplePlugin) "hashFuncNames")
                 = Ok names
                 ∧ integrity a = Some value
                 ∧ computeIntegrity sampleCreateHash names
                     (source (a_source a)) = Ok value.
Proof.
  eexists. split; [vm_compute; reflexivity|].
  refine (processChunk_integrity_of_final_bytes sampleCreateHash
            sampleMakePlaceholder samplePlugin
            (sampleChainCompilation "let a = 1")
            (sampleChainAssets "let a = 1") sampleChain "A" _ _).
  vm_compute. reflexivity.
Defined.

(** ** The pre-pass and the final pass *)



Section PrePass.

Variable createHash : string -> HashResult.
Variable makePlaceholder : list string -> string -> string.


End PrePass.


Lemma mapM_Ok_Forall2 {A B : Type} (f : A → outcome B) (l : list A)
    (r : list B) :
  mapM f l = Ok r → Forall2 (fun x y => f x = Ok y) l r.
Proof.
  revert r. induction l as [|x l IH]; intros r; cbn.
  - intros [= <-]. constructor.
  - destruct (f x) as [y| |] eqn:Hx; cbn; [|done|done].
    destruct (mapM f l) as [k| |]; cbn; [|done|done].
    intros [= <-]. constructor; [done|]. by apply IH.
Qed.

Lemma Forall2_elem_l {A B : Type} (R : A → B → Prop) (l : list A)
    (r : list B) (x : A) :
  Forall2 R l r → x ∈ l → ∃ y, y ∈ r ∧ R x y.
Proof.
  intros H Hx. apply list_elem_of_lookup in Hx as [i Hi].
  destruct (Forall2_lookup_l _ _ _ _ _ H Hi) as (y & Hy & HR).
  exists y. split; [|done]. apply list_elem_of_lookup. by exists i.
Qed.

Lemma Forall2_elem_r {A B : Type} (R : A → B → Prop) (l : list A)
    (r : list B) (y : B) :
  Forall2 R l r → y ∈ r → ∃ x, x ∈ l ∧ R x y.
Proof.
  intros H Hy. apply list_elem_of_lookup in Hy as [i Hi].
  destruct (Forall2_lookup_r _ _ _ _ _ H Hi) as (x & Hx & HR).
  exists x. split; [|done]. apply list_elem_of_lookup. by exists i.
Qed.

Section FinalPass.

Variable createHash : string -> HashResult.

Lemma addMissingIntegrity_Ok (p : Plugin) (k : string) (a : Asset)
    (r : string * Asset * bool) :
  addMissingIntegrity createHash p (k, a) = Ok r →
  r.1.1 = k ∧ r.2 = lacksIntegrity a
  ∧ a_source r.1.2 = a_source a
  ∧ (lacksIntegrity a = false → r.1.2 = a)
  ∧ (lacksIntegrity a = true →
     ∃ names, asNames (getProp (options p) "hashFuncNames") = Ok names
              ∧ integrityMatches createHash names r.1.2).
Proof.
  unfold addMissingIntegrity. destruct (lacksIntegrity a) eqn:Hlacks.
  - destruct (asNames _) as [names| |]; [|done|done]. cbn [mbind outcome_bind].
    destruct (computeIntegrity _ names _) as [value| |] eqn:Hvalue;
      [|done|done].
    cbn [mbind outcome_bind]. intros [= <-]. cbn [fst snd a_source].
    split_and!; try done. intros _. exists names. split; [done|].
    exists value. done.
  - intros [= <-]. cbn [fst snd]. split_and!; done.
Qed.

Lemma addMissingIntegrityHashes_Ok (p : Plugin)
    (assets assets1 : gmap string Asset) (hashed : list string) :
  addMissingIntegrityHashes createHash p assets = Ok (assets1, hashed) →
  dom assets1 = dom assets
  ∧ ∀ k a, assets !! k = Some a →
      ∃ a1, assets1 !! k = Some a1
            ∧ a_source a1 = a_source a
            ∧ (lacksIntegrity a = false → a1 = a ∧ k ∉ hashed)
            ∧ (lacksIntegrity a = true →
               k ∈ hashed
               ∧ ∃ names,
                   asNames (getProp (options p) "hashFuncNames") = Ok names
                   ∧ integrityMatches createHash names a1).
Proof.
  unfold addMissingIntegrityHashes.
  destruct (mapM _ (map_to_list assets)) as [visited| |] eqn:Hvisited;
    [|done|done].
  cbn [mbind outcome_bind]. intros [= <- <-].
  apply mapM_Ok_Forall2 in Hvisited.
  assert (visited.*1.*1 = (map_to_list assets).*1) as Hkeys.
  { clear -Hvisited. induction Hvisited as [|[k a] y l r Hxy _ IH]; [done|].
    cbn [fmap list_fmap]. destruct (addMissingIntegrity_Ok _ _ _ _ Hxy) as (-> & _).
    f_equal. exact IH. }
  assert (NoDup (visited.*1).*1) as Hnodup.
  { rewrite Hkeys. apply NoDup_fst_map_to_list. }
  split.
  - rewrite dom_list_to_map_L, Hkeys. symmetry.
    apply leibniz_equiv, dom_alt.
  - intros k a Hk. apply elem_of_map_to_list in Hk.
    destruct (Forall2_elem_l _ _ _ _ Hvisited Hk) as ([[k' a1] b] & Hy & Hrun).
    destruct (addMissingIntegrity_Ok _ _ _ _ Hrun)
      as (Hkey & Hb & Hsrc & Hkept & Hnew).
    cbn [fst snd] in *. subst k' b.
    exists a1. split_and!.
    + apply elem_of_list_to_map_1; [done|].
      apply list_elem_of_fmap. by exists (k, a1, lacksIntegrity a).
    + done.
    + intros Hl. split; [by apply Hkept|].
      intros Hin. apply list_elem_of_fmap in Hin as ([k2 a2] & Hk2 & Hin).
      apply list_elem_of_fmap in Hin as ([[k3 a3] b3] & Heq & Hin).
      apply list_elem_of_filter in Hin as [Hb3 Hin].
      cbn [fst snd] in *. injection Heq as <- <-. subst k2 b3.
      destruct (Forall2_elem_r _ _ _ _ Hvisited Hin) as ([k4 a4] & Hin4 & Hrun4).
      destruct (addMissingIntegrity_Ok _ _ _ _ Hrun4) as (Hk4 & Hb4 & _).
      cbn [fst snd] in *. subst k4.
      apply elem_of_map_to_list in Hin4, Hk.
      assert (a4 = a) as -> by congruence. congruence.
    + intros Hl. split; [|by apply Hnew].
      apply list_elem_of_fmap. exists (k, a1). split; [done|].
      apply list_elem_of_fmap. exists (k, a1, lacksIntegrity a).
      split; [done|]. apply list_elem_of_filter. split; [exact Hl|exact Hy].
Qed.

Lemma asNames_empty (v : jsval) : asNames v = Ok [] → v = JArr [].
Proof.
  unfold asNames. destruct v; try done.
  destruct elems as [|e elems]; [done|].
  cbn. destruct e; cbn; try done. by destruct (mapM _ elems).
Qed.

Lemma computeIntegrity_nonempty (names : list string) (bytes value : string) :
  names ≠ [] →
  computeIntegrity createHash names bytes = Ok value → value ≠ EmptyString.
Proof.
  destruct names as [|n names]; [done|]. intros _.
  unfold computeIntegrity. cbn.
  destruct (createHash n) as [message|digest64]; cbn; [done|].
  destruct (mapM _ names) as [entries| |]; cbn; [|done|done].
  intros [= <-] H.
  assert (n +:+ "-" +:+ digest64 bytes = EmptyString) as Hentry.
  { destruct entries; [exact H|]. by apply append_empty in H. }
  destruct n; discriminate Hentry.
Qed.

(** An integrity computed from names that are not the empty array is not
    the empty string, so that [!asset.integrity] is false of the asset. *)
Lemma hashed_has_integrity (v : jsval) (names : list string) (a : Asset)
    (value : string) :
  v ≠ JArr [] → asNames v = Ok names → integrity a = Some value →
  computeIntegrity createHash names (source (a_source a)) = Ok value →
  lacksIntegrity a = false.
Proof.
  intros Hne Hnames Hv Hvalue. unfold lacksIntegrity. rewrite Hv.
  apply String.eqb_neq. eapply computeIntegrity_nonempty; [|exact Hvalue].
  intros ->. by apply asNames_empty in Hnames.
Qed.

Lemma addMissingIntegrityHashes_every (p : Plugin)
    (assets assets1 : gmap string Asset) (hashed : list string) :
  addMissingIntegrityHashes createHash p assets = Ok (assets1, hashed) →
  ∀ k a1, assets1 !! k = Some a1 →
    (assets !! k = Some a1 ∧ lacksIntegrity a1 = false)
    ∨ ∃ names value,
        asNames (getProp (options p) "hashFuncNames") = Ok names
        ∧ integrity a1 = Some value
        ∧ computeIntegrity createHash names (source (a_source a1)) = Ok value.
Proof.
  intros Hfill k a1 Hk1.
  destruct (addMissingIntegrityHashes_Ok _ _ _ _ Hfill) as [Hdom Hall].
  assert (is_Some (assets !! k)) as [a Hk].
  { apply elem_of_dom. rewrite <- Hdom. apply elem_of_dom. by eexists. }
  destruct (Hall k a Hk) as (a2 & Hk2 & _ & Hkept & Hnew).
  assert (a2 = a1) as -> by congruence.
  destruct (lacksIntegrity a) eqn:Hl.
  - destruct (Hnew eq_refl) as (_ & names & Hnames & value & Hv & Hm).
    right. by exists names, value.
  - destruct (Hkept eq_refl) as [-> _]. by left.
Qed.

(** X14. Whatever the configuration, when [addMissingIntegrityHashes] returns it
    has added or removed no asset and has touched no source; an asset that
    had an integrity is the very asset it was, and is not hashed; an asset
    that lacked one is hashed and carries the integrity of its bytes. *)
Theorem addMissingIntegrityHashes_only_fills (p : Plugin)
    (assets assets1 : gmap string Asset) (hashed : list string) :
  addMissingIntegrityHashes createHash p assets = Ok (assets1, hashed) →
  dom assets1 = dom assets
  ∧ ∀ k a, assets !! k = Some a →
      ∃ a1, assets1 !! k = Some a1
            ∧ a_source a1 = a_source a
            ∧ (lacksIntegrity a = false → a1 = a ∧ k ∉ hashed)
            ∧ (lacksIntegrity a = true →
               k ∈ hashed
               ∧ ∃ names value,
                   asNames (getProp (options p) "hashFuncNames") = Ok names
                   ∧ integrity a1 = Some value
                   ∧ computeIntegrity createHash names (source (a_source a))
                     = Ok value).
Proof.
  intros Hrun. destruct (addMissingIntegrityHashes_Ok _ _ _ _ Hrun) as [Hdom Hall].
  split; [done|]. intros k a Hk.
  destruct (Hall k a Hk) as (a1 & Hk1 & Hsrc & Hkept & Hnew).
  exists a1. split_and!; try done.
  intros Hl. destruct (Hnew Hl) as (Hin & names & Hnames & value & Hv & Hm).
  split; [done|]. exists names, value. by rewrite <- Hsrc.
Qed.

(** X15. When an asset lacks an integrity and [hashFuncNames] is not an array of
    supported algorithm names, [addMissingIntegrityHashes] does not return:
    the exception of the hashing helper goes through. *)
Theorem addMissingIntegrityHashes_throws (p : Plugin)
    (assets : gmap string Asset) (k : string) (a : Asset) :
  assets !! k = Some a → lacksIntegrity a = true →
  (∀ names, asNames (getProp (options p) "hashFuncNames") = Ok names →
            ∃ n, n ∈ names ∧ validName createHash (JStr n) = false) →
  ∃ e, addMissingIntegrityHashes createHash p assets = Throw e.
Proof.
  intros Hk Hl Hbad.
  destruct (addMissingIntegrityHashes createHash p assets)
    as [[assets1 hashed]|e|] eqn:Hrun.
  - exfalso. destruct (addMissingIntegrityHashes_Ok _ _ _ _ Hrun) as [_ Hall].
    destruct (Hall k a Hk) as (a1 & _ & _ & _ & Hnew).
    destruct (Hnew Hl) as (_ & names & Hnames & value & _ & Hvalue).
    destruct (Hbad names Hnames) as (n & Hn & Hinvalid).
    unfold computeIntegrity in Hvalue.
    destruct (mapM _ names) as [entries| |] eqn:Hentries; [|done|done].
    apply mapM_Ok_Forall2 in Hentries.
    destruct (Forall2_elem_l _ _ _ _ Hentries Hn) as (y & _ & Hy).
    unfold validName in Hinvalid. by destruct (createHash n).
  - by exists e.
  - exfalso. unfold addMissingIntegrityHashes in Hrun.
    pose proof (mapM_returns (addMissingIntegrity createHash p)
                  (map_to_list assets)) as Hret.
    destruct (mapM _ (map_to_list assets)); [done|done|].
    apply Hret; [|done]. intros [k' a']. unfold addMissingIntegrity.
    destruct (lacksIntegrity a'); [|done].
    pose proof (asNames_returns (getProp (options p) "hashFuncNames")) as Hn.
    destruct (asNames _) as [names| |]; [|done|done]. cbn [mbind outcome_bind].
    pose proof (computeIntegrity_returns createHash names
                  (source (a_source a'))) as Hc.
    by destruct (computeIntegrity _ names _).
Qed.

End FinalPass.

Lemma addMissingIntegrityHashes_only_fills_witness :
  ∃ assets1 hashed,
    addMissingIntegrityHashes sampleCreateHash samplePlugin
      {[ "a.js" := sampleAsset "let a = 1" ]} = Ok (assets1, hashed)
    ∧ dom assets1 = dom ({[ "a.js" := sampleAsset "let a = 1" ]}
                         : gmap string Asset).
Proof.
  let result :=
    eval vm_compute in
      (addMissingIntegrityHashes sampleCreateHash samplePlugin
         {[ "a.js" := sampleAsset "let a = 1" ]}) in
  assert (addMissingIntegrityHashes sampleCreateHash samplePlugin
            {[ "a.js" := sampleAsset "let a = 1" ]} = result)
    as Hrun by (vm_compute; reflexivity).
  eexists _, _. split; [exact Hrun|].
  exact (proj1 (addMissingIntegrityHashes_only_fills sampleCreateHash
                  samplePlugin _ _ _ Hrun)).
Defined.

Lemma addMissingIntegrityHashes_throws_witness :
  ∃ e, addMissingIntegrityHashes sampleCreateHash
         (set_options samplePlugin
            (<["hashFuncNames" := JArr [JStr "md0"]]> (options samplePlugin)))
         {[ "a.js" := sampleAsset "let a = 1" ]} = Throw e.
Proof.
  apply (addMissingIntegrityHashes_throws sampleCreateHash _ _ "a.js"
           (sampleAsset "let a = 1")).
  - reflexivity.
  - reflexivity.
  - intros names Hnames. vm_compute in Hnames. injection Hnames as <-.
    exists "md0". split; [by left|reflexivity].
Defined.

(** ** The hook after asset optimisation *)

Section AfterOptimize.

Variable createHash : string -> HashResult.
Variable makePlaceholder : list string -> string -> string.
Variable isRuntimeChunk : string -> bool.

Lemma processChunk_Ok (p : Plugin) (c : Compilation)
    (assets : gmap string Asset) (g : gmap string Chunk) (root : string)
    (st' : ChunkState) :
  processChunk createHash makePlaceholder p c assets g root = Ok st' →
  onlyWarned p c (cs_plugin st') (cs_compilation st')
  ∧ dom (cs_assets st') = dom assets
  ∧ ∀ k a, cs_assets st' !! k = Some a →
           keptOrMatching createHash p assets k a.
Proof.
  unfold processChunk. destruct (findChunks g root) as [found|]; [|done].
  intros Hrun. apply (forEachChunk_Ok _ _ _ _ _ Hrun).
Qed.

Lemma forEachRuntimeChunk_Ok (chunks : list string) (p p' : Plugin)
    (c c' : Compilation) (assets assets' : gmap string Asset)
    (g : gmap string Chunk) :
  forEachRuntimeChunk createHash makePlaceholder p c assets g chunks
  = Ok (p', c', assets') →
  onlyWarned p c p' c'
  ∧ dom assets' = dom assets
  ∧ ∀ k a, assets' !! k = Some a → keptOrMatching createHash p assets k a.
Proof.
  revert p c assets. induction chunks as [|chunk chunks IH];
    intros p c assets; cbn [forEachRuntimeChunk].
  - intros [= <- <- <-]. split_and!; [apply onlyWarned_refl|done|].
    intros k a Hk. by left.
  - destruct (processChunk _ _ p c assets g chunk) as [st| |] eqn:Hstep;
      cbn [mbind outcome_bind]; [|done|done].
    intros Hrest.
    destruct (processChunk_Ok _ _ _ _ _ _ Hstep) as (Hw1 & Hd1 & Hk1).
    destruct (IH _ _ _ Hrest) as (Hw2 & Hd2 & Hk2).
    split_and!.
    + by eapply onlyWarned_trans.
    + congruence.
    + intros k a Hk. destruct (Hk2 k a Hk) as [Hkept|(names & Hnames & Hm)].
      * by apply Hk1.
      * right. exists names. split; [|done].
        destruct Hw1 as (<- & _). done.
Qed.

(** X16. When [afterOptimizeAssets] returns, the assets are the same set
    of names, no error was reported and the options are as they were.  Every
    asset is either the asset it was, which came with a non-empty integrity
    of its own, or an asset whose integrity is the integrity of its final
    bytes.  Unless [hashFuncNames] is the empty array, no asset is left
    without an integrity: [!asset.integrity] is false of every one. *)
Theorem afterOptimizeAssets_every_asset (p p' : Plugin) (c c' : Compilation)
    (assets assets' : gmap string Asset) (g : gmap string Chunk)
    (chunks : list string) :
  afterOptimizeAssets createHash makePlaceholder isRuntimeChunk p c assets g
    chunks = Ok (p', c', assets') →
  errors c' = errors c
  ∧ options p' = options p
  ∧ dom assets' = dom assets
  ∧ (∀ k a', assets' !! k = Some a' →
       (assets !! k = Some a' ∧ lacksIntegrity a' = false)
       ∨ ∃ names value,
           asNames (getProp (options p) "hashFuncNames") = Ok names
           ∧ integrity a' = Some value
           ∧ computeIntegrity createHash names (source (a_source a'))
             = Ok value)
  ∧ (getProp (options p) "hashFuncNames" ≠ JArr [] →
     ∀ k a', assets' !! k = Some a' → lacksIntegrity a' = false).
Proof.
  unfold afterOptimizeAssets.
  destruct (forEachRuntimeChunk _ _ p c assets g _)
    as [[[p1 c1] assets1]| |] eqn:Hloop; cbn [mbind outcome_bind];
    [|done|done].
  destruct (addMissingIntegrityHashes createHash p1 assets1)
    as [[assets2 hashed]| |] eqn:Hfill; cbn [mbind outcome_bind];
    [|done|done].
  intros [= <- <- <-].
  destruct (forEachRuntimeChunk_Ok _ _ _ _ _ _ _ _ Hloop)
    as ((Hopts & _ & _ & _ & Herr & _) & Hdom1 & Hall1).
  destruct (addMissingIntegrityHashes_Ok _ _ _ _ _ Hfill) as [Hdom2 _].
  assert (∀ k a', assets2 !! k = Some a' →
            (assets !! k = Some a' ∧ lacksIntegrity a' = false)
            ∨ ∃ names value,
                asNames (getProp (options p) "hashFuncNames") = Ok names
                ∧ integrity a' = Some value
                ∧ computeIntegrity createHash names (source (a_source a'))
                  = Ok value) as Hcases.
  { intros k a' Hk.
    destruct (addMissingIntegrityHashes_every _ _ _ _ _ Hfill k a' Hk)
      as [[Hk1 Hl]|(names & value & Hnames & Hv & Hm)].
    - destruct (Hall1 k a' Hk1) as [Hsame|(names & Hnames & value & Hv & Hm)].
      + by left.
      + right. by exists names, value.
    - right. exists names, value. by rewrite <- Hopts. }
  split_and!; [done|done|congruence|exact Hcases|].
  intros Hne k a' Hk.
  destruct (Hcases k a' Hk) as [[_ Hl]|(names & value & Hnames & Hv & Hm)];
    [done|].
  by eapply hashed_has_integrity.
Qed.

End AfterOptimize.

Lemma afterOptimizeAssets_every_asset_witness :
  ∃ p' c' assets',
    afterOptimizeAssets sampleCreateHash sampleMakePlaceholder
      (fun id => String.eqb id "A") samplePlugin
      (sampleChainCompilation "let a = 1") (sampleChainAssets "let a = 1")
      sampleChain ["A"; "B"; "C"] = Ok (p', c', assets')
    ∧ ∀ k a', assets' !! k = Some a' → lacksIntegrity a' = false.
Proof.
  let result :=
    eval vm_compute in
      (afterOptimizeAssets sampleCreateHash sampleMakePlaceholder
         (fun id => String.eqb id "A") samplePlugin
         (sampleChainCompilation "let a = 1") (sampleChainAssets "let a = 1")
         sampleChain ["A"; "B"; "C"]) in
  assert (afterOptimizeAssets sampleCreateHash sampleMakePlaceholder
            (fun id => String.eqb id "A") samplePlugin
            (sampleChainCompilation "let a = 1")
            (sampleChainAssets "let a = 1") sampleChain ["A"; "B"; "C"]
          = result) as Hrun by (vm_compute; reflexivity).
  eexists _, _, _. split; [exact Hrun|].
  destruct (afterOptimizeAssets_every_asset _ _ _ _ _ _ _ _ _ _ _ Hrun)
    as (_ & _ & _ & _ & Hhas).
  apply Hhas. intros H. vm_compute in H. discriminate H.
Defined.

(** ** The hooks of html-webpack-plugin *)

Lemma mapM_Ok_fixed {A : Type} (f : A → outcome A) (l r : list A) :
  Forall (fun x => ∀ y, f x = Ok y → y = x) l → mapM f l = Ok r → r = l.
Proof.
  intros Hall Hrun. apply mapM_Ok_Forall2 in Hrun.
  induction Hrun as [|x y l r Hx _ IH]; [done|].
  apply Forall_cons in Hall as [Hfix Hall].
  rewrite (Hfix _ Hx). f_equal. by apply IH.
Qed.

Section TagHooks.

Variable createHash : string -> HashResult.
Variable getTagSrc : Tag -> jsval.
Variable getIntegrityChecksumForAsset : gmap string Asset -> string -> jsval.
Variable pathRelative : jsval -> jsval -> outcome string.
Variable filterTag : Tag -> bool.

Lemma processTag_Ok (p : Plugin) (c : Compilation) (tag tag' : Tag) :
  processTag getTagSrc getIntegrityChecksumForAsset pathRelative p c tag
  = Ok tag' →
  tagName tag' = tagName tag
  ∧ (∀ k, k ≠ "integrity" → k ≠ "crossorigin" →
          attributes tag' !! k = attributes tag !! k)
  ∧ (is_Some (attributes tag !! "integrity") → tag' = tag)
  ∧ is_Some (attributes tag' !! "integrity").
Proof.
  unfold processTag.
  destruct (hwpAssetPath _ _ _) as [src| |]; cbn [mbind outcome_bind];
    [|done|done].
  destruct (bool_decide (is_Some (attributes tag !! "integrity"))) eqn:Hhas;
    cbn [negb]; intros [= <-].
  - apply bool_decide_eq_true_1 in Hhas. done.
  - apply bool_decide_eq_false_1 in Hhas.
    unfold set_attributes. cbn [tagName attributes]. split_and!.
    + done.
    + intros k Hi Hc. by rewrite !lookup_insert_ne.
    + done.
    + rewrite lookup_insert_ne, lookup_insert_eq by done. by eexists.
Qed.

Lemma processTags_Ok (p : Plugin) (c : Compilation) (tags tags' : list Tag) :
  processTags getTagSrc getIntegrityChecksumForAsset pathRelative filterTag
    p c tags = Ok tags' →
  Forall2 (tagProcessed filterTag) tags tags'.
Proof.
  intros Hrun. apply mapM_Ok_Forall2 in Hrun.
  eapply Forall2_impl; [exact Hrun|]. cbn beta.
  intros tag tag' Hone. unfold tagProcessed.
  destruct (filterTag tag) eqn:Hf.
  - destruct (processTag_Ok _ _ _ _ Hone) as (Hn & Hk & Hkeep & Hhas).
    split_and!; done.
  - injection Hone as <-. split_and!; done.
Qed.

Lemma processTags_settled (p p2 : Plugin) (c c2 : Compilation)
    (tags tags' tags'' : list Tag) :
  processTags getTagSrc getIntegrityChecksumForAsset pathRelative filterTag
    p c tags = Ok tags' →
  processTags getTagSrc getIntegrityChecksumForAsset pathRelative filterTag
    p2 c2 tags' = Ok tags'' →
  tags'' = tags'.
Proof.
  intros Hfirst Hsecond. apply processTags_Ok in Hfirst.
  refine (mapM_Ok_fixed _ _ _ _ Hsecond).
  apply Forall_forall. intros tag' Hin again.
  destruct (Forall2_elem_r _ _ _ _ Hfirst Hin)
    as (tag & _ & _ & _ & Hskip & _ & Hhas).
  destruct (filterTag tag') eqn:Hf'; [|congruence].
  intros Hagain. apply processTag_Ok in Hagain as (_ & _ & Hkeep & _).
  apply Hkeep. destruct (filterTag tag) eqn:Hf.
  - by apply Hhas.
  - rewrite (Hskip eq_refl) in Hf'. congruence.
Qed.

(** X17. When [alterAssetTags] returns, the head and the body hold the same tags
    in the same order: a tag keeps its name and every attribute other than
    [integrity] and [crossorigin]; a tag that [filterTag] rejects, or that
    came with an [integrity] attribute, is untouched; a tag that [filterTag]
    accepts has an [integrity] attribute afterwards. *)
Theorem alterAssetTags_every_tag (p : Plugin) (c : Compilation)
    (pluginArgs pluginArgs' : PluginArgs) :
  alterAssetTags getTagSrc getIntegrityChecksumForAsset pathRelative filterTag
    p c pluginArgs = Ok pluginArgs' →
  Forall2 (tagProcessed filterTag) (pa_head pluginArgs) (pa_head pluginArgs')
  ∧ Forall2 (tagProcessed filterTag) (pa_body pluginArgs) (pa_body pluginArgs').
Proof.
  unfold alterAssetTags.
  destruct (processTags _ _ _ _ p c (pa_head pluginArgs))
    as [newHead| |] eqn:Hhead; cbn [mbind outcome_bind]; [|done|done].
  destruct (processTags _ _ _ _ p c (pa_body pluginArgs))
    as [newBody| |] eqn:Hbody; cbn [mbind outcome_bind]; [|done|done].
  intros [= <-]. cbn [pa_head pa_body].
  split; by eapply processTags_Ok.
Qed.

(** X18. A second pass of [alterAssetTags] over tags that went through it once
    changes nothing, whatever the assets, the public path and the
    [crossOriginLoading] policy are by then. *)
Theorem alterAssetTags_second_pass (p p2 : Plugin) (c c2 : Compilation)
    (pluginArgs pluginArgs' pluginArgs'' : PluginArgs) :
  alterAssetTags getTagSrc getIntegrityChecksumForAsset pathRelative filterTag
    p c pluginArgs = Ok pluginArgs' →
  alterAssetTags getTagSrc getIntegrityChecksumForAsset pathRelative filterTag
    p2 c2 pluginArgs' = Ok pluginArgs'' →
  pluginArgs'' = pluginArgs'.
Proof.
  unfold alterAssetTags.
  destruct (processTags _ _ _ _ p c (pa_head pluginArgs))
    as [head1| |] eqn:Hhead1; cbn [mbind outcome_bind]; [|done|done].
  destruct (processTags _ _ _ _ p c (pa_body pluginArgs))
    as [body1| |] eqn:Hbody1; cbn [mbind outcome_bind]; [|done|done].
  intros [= <-]. cbn [pa_head pa_body].
  destruct (processTags _ _ _ _ p2 c2 head1)
    as [head2| |] eqn:Hhead2; cbn [mbind outcome_bind]; [|done|done].
  destruct (processTags _ _ _ _ p2 c2 body1)
    as [body2| |] eqn:Hbody2; cbn [mbind outcome_bind]; [|done|done].
  intros [= <-].
  by rewrite (processTags_settled _ _ _ _ _ _ _ Hhead1 Hhead2),
    (processTags_settled _ _ _ _ _ _ _ Hbody1 Hbody2).
Qed.

Lemma assetIntegrity_Ok (p : Plugin) (files : gmap string Asset)
    (filePaths values : list jsval) :
  assetIntegrity getIntegrityChecksumForAsset pathRelative p files filePaths
  = Ok values →
  Forall2 (integrityOf getIntegrityChecksumForAsset pathRelative
             (hwpPublicPath p) files) filePaths values.
Proof.
  intros Hrun. apply mapM_Ok_Forall2 in Hrun.
  eapply Forall2_impl; [exact Hrun|]. cbn beta.
  intros filePath value. unfold hwpAssetPath, integrityOf.
  destruct (pathRelative _ _) as [src| |]; cbn [mbind outcome_bind];
    [|done|done].
  intros [= <-]. by exists src.
Qed.

(** X19. When [beforeHtmlGeneration] returns, the plugin remembers the
    public path it was given, and the compilation has the same asset names,
    each asset being either the asset it was, which had a non-empty
    integrity, or an asset whose integrity is the integrity of its bytes;
    unless [hashFuncNames] is the empty array, [!asset.integrity] is false
    of every one.  [jsIntegrity] and [cssIntegrity] line up with [js] and
    [css]: entry by entry, the integrity looked up, among the assets as
    they are after the missing hashes were added, for the path relative to
    that public path. *)
Theorem beforeHtmlGeneration_lists (p p' : Plugin) (c c' : Compilation)
    (publicPath : jsval) (js css jsIntegrity cssIntegrity : list jsval) :
  beforeHtmlGeneration createHash getIntegrityChecksumForAsset pathRelative
    p c publicPath js css = Ok (p', c', jsIntegrity, cssIntegrity) →
  hwpPublicPath p' = publicPath
  ∧ options p' = options p
  ∧ dom (assets c') = dom (assets c)
  ∧ (∀ k a, assets c' !! k = Some a →
       (assets c !! k = Some a ∧ lacksIntegrity a = false)
       ∨ ∃ names value,
           asNames (getProp (options p) "hashFuncNames") = Ok names
           ∧ integrity a = Some value
           ∧ computeIntegrity createHash names (source (a_source a))
             = Ok value)
  ∧ (getProp (options p) "hashFuncNames" ≠ JArr [] →
     ∀ k a, assets c' !! k = Some a → lacksIntegrity a = false)
  ∧ Forall2 (integrityOf getIntegrityChecksumForAsset pathRelative
             publicPath (assets c')) js jsIntegrity
  ∧ Forall2 (integrityOf getIntegrityChecksumForAsset pathRelative
             publicPath (assets c')) css cssIntegrity.
Proof.
  unfold beforeHtmlGeneration.
  destruct (addMissingIntegrityHashes createHash _ (assets c))
    as [[assets1 hashed]| |] eqn:Hfill; cbn [mbind outcome_bind];
    [|done|done].
  destruct (assetIntegrity _ _ _ _ js) as [jsI| |] eqn:Hjs;
    cbn [mbind outcome_bind]; [|done|done].
  destruct (assetIntegrity _ _ _ _ css) as [cssI| |] eqn:Hcss;
    cbn [mbind outcome_bind]; [|done|done].
  intros [= <- <- <- <-].
  destruct (addMissingIntegrityHashes_Ok _ _ _ _ _ Hfill) as [Hdom _].
  pose proof (addMissingIntegrityHashes_every _ _ _ _ _ Hfill) as Hcases.
  apply assetIntegrity_Ok in Hjs, Hcss.
  cbn [set_hwpPublicPath set_assets hwpPublicPath options assets] in *.
  split_and!; try done.
  intros Hne k a Hk.
  destruct (Hcases k a Hk) as [[_ Hl]|(names & value & Hnames & Hv & Hm)];
    [done|].
  by eapply hashed_has_integrity.
Qed.

End TagHooks.

Lemma alterAssetTags_every_tag_witness :
  ∃ pluginArgs',
    alterAssetTags sampleGetTagSrc sampleGetIntegrity samplePathRelative
      sampleFilterTag (set_hwpPublicPath samplePlugin (JStr "/assets/"))
      (newCompilation (JBool false) samplePageAssets) samplePage
    = Ok pluginArgs'
    ∧ Forall2 (tagProcessed sampleFilterTag)
        (pa_head samplePage) (pa_head pluginArgs')
    ∧ Forall2 (tagProcessed sampleFilterTag)
        (pa_body samplePage) (pa_body pluginArgs').
Proof.
  let result :=
    eval vm_compute in
      (alterAssetTags sampleGetTagSrc sampleGetIntegrity samplePathRelative
         sampleFilterTag (set_hwpPublicPath samplePlugin (JStr "/assets/"))
         (newCompilation (JBool false) samplePageAssets) samplePage) in
  assert (alterAssetTags sampleGetTagSrc sampleGetIntegrity samplePathRelative
            sampleFilterTag (set_hwpPublicPath samplePlugin (JStr "/assets/"))
            (newCompilation (JBool false) samplePageAssets) samplePage
          = result) as Hrun by (vm_compute; reflexivity).
  eexists. split; [exact Hrun|].
  exact (alterAssetTags_every_tag _ _ _ _ _ _ _ _ Hrun).
Defined.

Lemma alterAssetTags_second_pass_witness :
  ∃ pluginArgs' pluginArgs'',
    alterAssetTags sampleGetTagSrc sampleGetIntegrity samplePathRelative
      sampleFilterTag (set_hwpPublicPath samplePlugin (JStr "/assets/"))
      (newCompilation (JBool false) samplePageAssets) samplePage
    = Ok pluginArgs'
    ∧ alterAssetTags sampleGetTagSrc sampleGetIntegrity samplePathRelative
        sampleFilterTag (set_hwpPublicPath samplePlugin (JStr "/"))
        (newCompilation (JStr "use-credentials") ∅) pluginArgs'
      = Ok pluginArgs''
    ∧ pluginArgs'' = pluginArgs'.
Proof.
  let result :=
    eval vm_compute in
      (alterAssetTags sampleGetTagSrc sampleGetIntegrity samplePathRelative
         sampleFilterTag (set_hwpPublicPath samplePlugin (JStr "/assets/"))
         (newCompilation (JBool false) samplePageAssets) samplePage) in
  match result with
  | Ok ?first =>
      assert (alterAssetTags sampleGetTagSrc sampleGetIntegrity
                samplePathRelative sampleFilterTag
                (set_hwpPublicPath samplePlugin (JStr "/assets/"))
                (newCompilation (JBool false) samplePageAssets) samplePage
              = Ok first) as Hfirst by (vm_compute; reflexivity);
      let again :=
        eval vm_compute in
          (alterAssetTags sampleGetTagSrc sampleGetIntegrity
             samplePathRelative sampleFilterTag
             (set_hwpPublicPath samplePlugin (JStr "/"))
             (newCompilation (JStr "use-credentials") ∅) first) in
      match again with
      | Ok ?second =>
          assert (alterAssetTags sampleGetTagSrc sampleGetIntegrity
                    samplePathRelative sampleFilterTag
                    (set_hwpPublicPath samplePlugin (JStr "/"))
                    (newCompilation (JStr "use-credentials") ∅) first
                  = Ok second) as Hsecond by (vm_compute; reflexivity);
          exists first, second; split; [exact Hfirst|];
          split; [exact Hsecond|];
          exact (alterAssetTags_second_pass _ _ _ _ _ _ _ _ _ _ _
                   Hfirst Hsecond)
      end
  end.
Defined.

Lemma beforeHtmlGeneration_lists_witness :
  ∃ p' c' jsIntegrity cssIntegrity,
    beforeHtmlGeneration sampleCreateHash sampleGetIntegrity
      samplePathRelative samplePlugin
      (newCompilation (JBool false) samplePageAssets) (JStr "/assets/")
      [JStr "/assets/main.js"] [JStr "/assets/main.css"]
    = Ok (p', c', jsIntegrity, cssIntegrity)
    ∧ hwpPublicPath p' = JStr "/assets/"
    ∧ (∀ k a, assets c' !! k = Some a → lacksIntegrity a = false)
    ∧ Forall2 (integrityOf sampleGetIntegrity samplePathRelative
                 (JStr "/assets/") (assets c'))
        [JStr "/assets/main.js"] jsIntegrity.
Proof.
  let result :=
    eval vm_compute in
      (beforeHtmlGeneration sampleCreateHash sampleGetIntegrity
         samplePathRelative samplePlugin
         (newCompilation (JBool false) samplePageAssets) (JStr "/assets/")
         [JStr "/assets/main.js"] [JStr "/assets/main.css"]) in
  assert (beforeHtmlGeneration sampleCreateHash sampleGetIntegrity
            samplePathRelative samplePlugin
            (newCompilation (JBool false) samplePageAssets) (JStr "/assets/")
            [JStr "/assets/main.js"] [JStr "/assets/main.css"]
          = result) as Hrun by (vm_compute; reflexivity).
  eexists _, _, _, _. split; [exact Hrun|].
  destruct (beforeHtmlGeneration_lists _ _ _ _ _ _ _ _ _ _ _ _ Hrun)
    as (Hpath & _ & _ & _ & Hhas & Hjs & _).
  split; [exact Hpath|]. split; [|exact Hjs].
  apply Hhas. intros H. vm_compute in H. discriminate H.
Defined.

Lemma validation_never_enables_witness :
  let off := set_options samplePlugin
               (<["enabled" := JBool false]> (options samplePlugin)) in
  truthy (getProp (options (validateOptions sampleCreateHash off
                              (newCompilation (JBool false) ∅)).1)
            "enabled") = false.
Proof.
  intros off.
  pose proof (validation_never_enables sampleCreateHash off
                (newCompilation (JBool false) ∅)) as H.
  cbv zeta in H. destruct H as (_ & _ & H).
  apply H. reflexivity.
Defined.
